(** * mcp_for_android: device transport and UI exploration engine

    A shallow embedding of the request/response correlation engine
    ([mcp/mcp_interface.py]) and of the application explorer
    ([app_learn/app_deep_explorer.py]), with the properties the
    specification states about them.

    Conventions of the embedding:
    - a Python [str] is the list of its Unicode code points ([pystr]), so
      that [len], slicing and per-character tests count code points;
    - a UI node (a Python [dict] decoded from the wire) is a record with
      one optional field per key the explorer reads or writes: [None] is
      an absent key, so that [node.get(k, d)] is [default d (k node)] and
      [k in node] is [is_Some (k node)];
    - dictionaries built by the code are [gmap]s when only lookups matter
      and insertion-ordered association lists when the code iterates;
    - time, UUIDs, socket reads and the JSON codec are inputs. *)

From Stdlib Require Import ZArith NArith List String Ascii Bool Lia.
From Stdlib Require Strings.Byte.
From stdpp Require Import base option gmap strings list fin_maps pretty.

#[local] Set Warnings "-clear-no-such-hyp".

Local Open Scope Z_scope.

(** ** Python strings *)

Abbreviation pystr := (list N).

(** An ASCII literal as a Python string. *)
Definition py (s : string) : pystr := map N_of_ascii (list_ascii_of_string s).

(** Truthiness of [str]: non-empty. *)
Definition str_truthy (s : pystr) : bool :=
  match s with [] => false | _ :: _ => true end.

(** [a + b] on strings is [a ++ b]; [sep.join(l)]: *)
Fixpoint str_join (sep : pystr) (l : list pystr) : pystr :=
  match l with
  | [] => []
  | [x] => x
  | x :: rest => x ++ sep ++ str_join sep rest
  end.

(** [s.split(sep)[-1]] for a one-character separator: the part after the
    last occurrence of [sep] (the whole string when there is none). *)
Fixpoint last_segment_aux (sep : N) (acc s : pystr) : pystr :=
  match s with
  | [] => acc
  | c :: rest =>
      if N.eqb c sep then last_segment_aux sep [] rest
      else last_segment_aux sep (acc ++ [c]) rest
  end.

Definition last_segment (sep : N) (s : pystr) : pystr := last_segment_aux sep [] s.

(** [s.startswith(p)] and [p in s]. *)
Fixpoint str_prefix (p s : pystr) : bool :=
  match p, s with
  | [], _ => true
  | _ :: _, [] => false
  | a :: p', b :: s' => N.eqb a b && str_prefix p' s'
  end.

Fixpoint str_contains (p s : pystr) : bool :=
  str_prefix p s ||
  match s with
  | [] => false
  | _ :: s' => str_contains p s'
  end.

(** The decimal rendering [f"{n}"] of a non-negative integer. *)
Definition str_of_nat (n : nat) : pystr := py (pretty n).

(** ** UI tree *)

(** A bounding box as the device sends it; every coordinate is read with
    [bounds.get(k, 0)]. *)
Record Bounds := mkBounds {
  b_left : option Z;
  b_top : option Z;
  b_right : option Z;
  b_bottom : option Z
}.

Definition bget (f : Bounds -> option Z) (b : Bounds) : Z := default 0 (f b).

(** Truthiness of the bounds [dict]: it has a key. *)
Definition has_key {A} (o : option A) : bool :=
  match o with Some _ => true | None => false end.

Definition bounds_truthy (b : Bounds) : bool :=
  has_key (b_left b) || has_key (b_top b) || has_key (b_right b) || has_key (b_bottom b).

Definition bounds_valid (b : Bounds) : bool :=
  (bget b_left b <? bget b_right b) && (bget b_top b <? bget b_bottom b).

(** A node of the UI tree. [parent] and [index] are the two keys that
    element enumeration writes: [parent] holds the [className] stored in
    the one-key dictionary [{"className": ...}]. *)
#[local] Unset Elimination Schemes.
Inductive Node := mkNode {
  className : option pystr;
  text : option pystr;
  contentDescription : option pystr;
  viewIdResourceName : option pystr;
  bounds : option Bounds;
  clickable : option bool;
  longClickable : option bool;
  checkable : option bool;
  checked : option bool;
  selected : option bool;
  enabled : option bool;
  focusable : option bool;
  focused : option bool;
  scrollable : option bool;
  isPassword : option bool;
  children : option (list Node);
  parent : option pystr;
  index : option Z
}.
#[local] Set Elimination Schemes.

(** [node.get("children", [])] *)
Definition get_children (n : Node) : list Node := default [] (children n).

(** [node.get(k, "")] and [node.get(k, False)] *)
Definition get_str (f : Node -> option pystr) (n : Node) : pystr := default [] (f n).
Definition get_flag (f : Node -> option bool) (n : Node) : bool := default false (f n).

(** Truthiness of a node [dict]: it has a key. *)
Definition node_truthy (n : Node) : bool :=
  has_key (className n) || has_key (text n) || has_key (contentDescription n)
  || has_key (viewIdResourceName n) || has_key (bounds n) || has_key (clickable n)
  || has_key (longClickable n) || has_key (checkable n) || has_key (checked n)
  || has_key (selected n) || has_key (enabled n) || has_key (focusable n)
  || has_key (focused n) || has_key (scrollable n) || has_key (isPassword n)
  || has_key (children n) || has_key (parent n) || has_key (index n).

(** The empty dictionary [{}]. *)
Definition empty_node : Node :=
  mkNode None None None None None None None None None None None None None None None
         None None None.

(** Structural induction that reaches the nodes inside [children]. *)
Section NodeInd.
Variable P : Node -> Prop.
Hypothesis Hnode : forall n, Forall P (get_children n) -> P n.

Fixpoint Node_ind' (n : Node) : P n :=
  Hnode n
    (match n as n0 return Forall P (get_children n0) with
     | mkNode _ _ _ _ _ _ _ _ _ _ _ _ _ _ _ ch _ _ =>
         match ch as c return Forall P (default [] c) with
         | None => @List.Forall_nil Node P
         | Some l =>
             (fix go (l : list Node) : Forall P l :=
                match l as l0 return Forall P l0 with
                | [] => @List.Forall_nil Node P
                | x :: r => @List.Forall_cons Node P x r (Node_ind' x) (go r)
                end) l
         end
     end).
End NodeInd.

(** ** Selector synthesis: [AppExplorer._create_selector_for_element] *)

Inductive selval :=
| SStr (s : pystr)
| SBounds (b : Bounds)
| SBool (b : bool).

(** The five interaction flags copied into the selector when the node
    carries the key. *)
Definition basic_flags : list (string * (Node -> option bool)) :=
  [("clickable", clickable); ("enabled", enabled); ("selected", selected);
   ("focusable", focusable); ("scrollable", scrollable)]%string.

Definition copy_flag (node : Node) (selector : gmap string selval)
    (kf : string * (Node -> option bool)) : gmap string selval :=
  match snd kf node with
  | Some v => <[fst kf := SBool v]> selector
  | None => selector
  end.

Definition _create_selector_for_element (node : Node) : gmap string selval :=
  let selector : gmap string selval := ∅ in
  let resource_id := get_str viewIdResourceName node in
  let selector :=
    if str_truthy resource_id then <["resourceId" := SStr resource_id]> selector
    else selector in
  let text := get_str text node in
  let selector :=
    if str_truthy text && (0 <? Z.of_nat (length text))
    then <["text" := SStr text]> selector else selector in
  let content_desc := get_str contentDescription node in
  let selector :=
    if str_truthy content_desc && (0 <? Z.of_nat (length content_desc))
    then <["contentDescription" := SStr content_desc]> selector else selector in
  let class_name := get_str className node in
  let selector :=
    if str_truthy class_name then <["className" := SStr class_name]> selector
    else selector in
  let selector :=
    match bounds node with
    | Some bounds =>
        if bounds_truthy bounds && bounds_valid bounds
        then <["bounds" := SBounds bounds]> selector else selector
    | None => selector
    end in
  let selector := foldl (copy_flag node) selector basic_flags in
  if bool_decide (selector = ∅)
  then <["fallback" := SStr (py "true")]> selector
  else selector.

(** ** Insertion-ordered dictionaries

    A Python [dict] the code iterates over: [d[k] = v] replaces the value
    of an existing key in place and appends a new key at the end. *)
Module Dict.
Definition t (V : Type) : Type := list (pystr * V).

Fixpoint get {V} (k : pystr) (d : t V) : option V :=
  match d with
  | [] => None
  | (k', v) :: rest => if bool_decide (k = k') then Some v else get k rest
  end.

Fixpoint set {V} (k : pystr) (v : V) (d : t V) : t V :=
  match d with
  | [] => [(k, v)]
  | (k', v') :: rest =>
      if bool_decide (k = k') then (k', v) :: rest else (k', v') :: set k v rest
  end.

Definition keys {V} (d : t V) : list pystr := map fst d.

(** [d.update(other)] *)
Definition update {V} (d other : t V) : t V :=
  foldl (fun acc kv => set (fst kv) (snd kv) acc) d other.
End Dict.

(** ** Element enumeration: [AppExplorer._identify_all_elements] *)

(** [self.element_types], in the order the dictionary literal lists it. *)
Definition element_types : list (pystr * list pystr) :=
  [ (py "text", [py "android.widget.TextView"]);
    (py "button", [py "android.widget.Button"; py "android.widget.ImageButton"]);
    (py "image", [py "android.widget.ImageView"]);
    (py "input", [py "android.widget.EditText"]);
    (py "password", [py "android.widget.EditText"]);
    (py "list", [py "android.widget.ListView"; py "android.widget.RecyclerView"]);
    (py "scroll", [py "android.widget.ScrollView"; py "android.widget.HorizontalScrollView"]);
    (py "checkbox", [py "android.widget.CheckBox"]);
    (py "radio", [py "android.widget.RadioButton"]);
    (py "switch", [py "android.widget.Switch"; py "android.widget.ToggleButton"]);
    (py "spinner", [py "android.widget.Spinner"]);
    (py "seekbar", [py "android.widget.SeekBar"]);
    (py "webview", [py "android.webkit.WebView"]);
    (py "tab", [py "android.widget.TabWidget"; py "com.google.android.material.tabs.TabLayout"]);
    (py "drawer", [py "androidx.drawerlayout.widget.DrawerLayout"]);
    (py "navigation", [py "com.google.android.material.navigation.NavigationView";
                       py "com.google.android.material.bottomnavigation.BottomNavigationView"]) ].

(** The first type whose class list has a member occurring in the class
    name; ["unknown"] when there is none. *)
Definition classify (class_name : pystr) : pystr :=
  match List.find (fun tc => existsb (fun cls => str_contains cls class_name) (snd tc))
                  element_types with
  | Some tc => fst tc
  | None => py "unknown"
  end.

Record ElementInfo := mkElementInfo {
  e_type : pystr;
  e_className : pystr;
  e_text : pystr;
  e_contentDescription : pystr;
  e_resourceId : pystr;
  e_bounds : Bounds;
  e_clickable : bool;
  e_longClickable : bool;
  e_checkable : bool;
  e_checked : bool;
  e_selected : bool;
  e_enabled : bool;
  e_focusable : bool;
  e_focused : bool;
  e_scrollable : bool;
  e_selector : gmap string selval
}.

(** Assignments to keys of a node. *)
Definition set_parent (v : pystr) (n : Node) : Node :=
  mkNode (className n) (text n) (contentDescription n) (viewIdResourceName n) (bounds n)
         (clickable n) (longClickable n) (checkable n) (checked n) (selected n)
         (enabled n) (focusable n) (focused n) (scrollable n) (isPassword n)
         (children n) (Some v) (index n).

Definition set_index (i : Z) (n : Node) : Node :=
  mkNode (className n) (text n) (contentDescription n) (viewIdResourceName n) (bounds n)
         (clickable n) (longClickable n) (checkable n) (checked n) (selected n)
         (enabled n) (focusable n) (focused n) (scrollable n) (isPassword n)
         (children n) (parent n) (Some i).

Definition set_bounds (b : option Bounds) (n : Node) : Node :=
  mkNode (className n) (text n) (contentDescription n) (viewIdResourceName n) b
         (clickable n) (longClickable n) (checkable n) (checked n) (selected n)
         (enabled n) (focusable n) (focused n) (scrollable n) (isPassword n)
         (children n) (parent n) (index n).

Definition set_children (c : option (list Node)) (n : Node) : Node :=
  mkNode (className n) (text n) (contentDescription n) (viewIdResourceName n) (bounds n)
         (clickable n) (longClickable n) (checkable n) (checked n) (selected n)
         (enabled n) (focusable n) (focused n) (scrollable n) (isPassword n)
         c (parent n) (index n).

(** The in-place repair of a bounds dictionary: nothing for the empty
    dictionary or a box of positive width and height, otherwise
    [right = left + 10] and/or [bottom = top + 10]. *)
Definition repair_bounds (b : Bounds) : Bounds :=
  if bounds_truthy b && negb (bounds_valid b) then
    let b1 :=
      if bget b_right b <=? bget b_left b
      then mkBounds (b_left b) (b_top b) (Some (bget b_left b + 10)) (b_bottom b)
      else b in
    if bget b_bottom b1 <=? bget b_top b1
    then mkBounds (b_left b1) (b_top b1) (b_right b1) (Some (bget b_top b1 + 10))
    else b1
  else b.

Definition empty_bounds : Bounds := mkBounds None None None None.

(** [f"{parent_path}/{index}" if parent_path else f"{index}"] *)
Definition node_id_of (parent_path : pystr) (index : nat) : pystr :=
  if str_truthy parent_path then parent_path ++ py "/" ++ str_of_nat index
  else str_of_nat index.

(** The writes [traverse_node] makes to the node itself, before it looks
    at the children. *)
Definition annotate (node : Node) (index : nat) (parent : option Node) : Node :=
  let node :=
    match parent with
    | Some p => if node_truthy p then set_parent (get_str className p) node else node
    | None => node
    end in
  let node := set_index (Z.of_nat index) node in
  set_bounds (repair_bounds <$> bounds node) node.

(** The condition under which a node is recorded. *)
Definition recorded (node : Node) : bool :=
  str_truthy (get_str text node) || str_truthy (get_str contentDescription node)
  || str_truthy (get_str viewIdResourceName node) || get_flag clickable node.

(** The entry stored for a recorded node; [node] is the node after
    [annotate]. *)
Definition element_info (node : Node) : ElementInfo :=
  let class_name := get_str className node in
  let element_type := classify class_name in
  let element_type :=
    if bool_decide (element_type = py "input") && get_flag isPassword node
    then py "password" else element_type in
  mkElementInfo element_type class_name (get_str text node)
    (get_str contentDescription node) (get_str viewIdResourceName node)
    (default empty_bounds (bounds node))
    (get_flag clickable node) (get_flag longClickable node) (get_flag checkable node)
    (get_flag checked node) (get_flag selected node) (default true (enabled node))
    (get_flag focusable node) (get_flag focused node) (get_flag scrollable node)
    (_create_selector_for_element node).

(** The loop [for i, child in enumerate(children)]: [visit child i]
    threads the [elements] dictionary through the children, left to
    right, and returns each child as the visit leaves it. *)
Definition traverse_children (visit : Node -> nat -> Dict.t ElementInfo -> Node * Dict.t ElementInfo)
  : list Node -> nat -> Dict.t ElementInfo -> list Node * Dict.t ElementInfo :=
  fix go (l : list Node) (i : nat) (els : Dict.t ElementInfo) :=
    match l with
    | [] => ([], els)
    | child :: rest =>
        let '(child', els1) := visit child i els in
        let '(rest', els2) := go rest (S i) els1 in
        (child' :: rest', els2)
    end.

(** [traverse_node] returns the node as it is after the traversal (the
    Python code mutates the caller's tree) and the [elements] dictionary. *)
Fixpoint traverse_node (node : Node) (parent_path : pystr) (index : nat)
    (parent : option Node) (elements : Dict.t ElementInfo) {struct node}
  : Node * Dict.t ElementInfo :=
  let node_id := node_id_of parent_path index in
  let node1 := annotate node index parent in
  let elements :=
    if recorded node1
    then Dict.set (py "element_" ++ node_id) (element_info node1) elements
    else elements in
  match children node with
  | None => (node1, elements)
  | Some ch =>
      let '(ch', elements') :=
        traverse_children
          (fun child i els => traverse_node child node_id i (Some node1) els)
          ch 0%nat elements in
      (set_children (Some ch') node1, elements')
  end.

Definition _identify_all_elements (ui_hierarchy : Node) : Node * Dict.t ElementInfo :=
  traverse_node ui_hierarchy [] 0 None [].

(** The node reached from the root by a path of child positions, and the
    identifier [traverse_node] gives to the node at that path. *)
Fixpoint subtree_at (n : Node) (p : list nat) : option Node :=
  match p with
  | [] => Some n
  | i :: p' =>
      match get_children n !! i with
      | Some c => subtree_at c p'
      | None => None
      end
  end.

Fixpoint path_id_from (parent_path : pystr) (index : nat) (p : list nat) : pystr :=
  match p with
  | [] => node_id_of parent_path index
  | i :: p' => path_id_from (node_id_of parent_path index) i p'
  end.

Definition element_id_at (p : list nat) : pystr := py "element_" ++ path_id_from [] 0 p.

(** A test holds of every node of a tree. *)
Fixpoint all_nodes (f : Node -> bool) (n : Node) : bool :=
  f n &&
  match children n with
  | Some ch => (fix go (l : list Node) := match l with [] => true | c :: r => all_nodes f c && go r end) ch
  | None => true
  end.

Fixpoint count_nodes (n : Node) : nat :=
  S (match children n with
     | Some ch => (fix go (l : list Node) := match l with [] => 0 | c :: r => count_nodes c + go r end) ch
     | None => 0
     end)%nat.

(** ** Python built-ins the code relies on

    [str.isalnum] (per character) and [str.lower] follow the Unicode
    tables of the interpreter; the development is parametric in them. *)
Class PyRuntime := {
  isalnum : N -> bool;
  str_lower : pystr -> pystr
}.

(** The built-ins restricted to ASCII, for running the definitions. *)
Definition ascii_isalnum (c : N) : bool :=
  ((48 <=? c) && (c <=? 57) || (65 <=? c) && (c <=? 90) || (97 <=? c) && (c <=? 122))%N.

Definition ascii_lower (s : pystr) : pystr :=
  map (fun c => if ((65 <=? c) && (c <=? 90))%N then (c + 32)%N else c) s.

Definition ascii_runtime : PyRuntime :=
  {| isalnum := ascii_isalnum; str_lower := ascii_lower |}.

(** ** Screen signature: [AppExplorer._generate_screen_signature] *)

(** [for child in children[:width]: visit(child)], the visits appending
    to one shared list. *)
Definition visit_first {A} (visit : Node -> list A) : list Node -> nat -> list A :=
  fix go (l : list Node) (width : nat) {struct l} :=
    match l, width with
    | child :: rest, S w => visit child ++ go rest w
    | _, _ => []
    end.

Fixpoint extract_texts (node : Node) (depth max_depth : nat) {struct node} : list pystr :=
  if (max_depth <? depth)%nat then []
  else
    let text := get_str text node in
    (if str_truthy text && (1 <? length text)%nat then [text] else []) ++
    match children node with
    | Some ch => visit_first (fun child => extract_texts child (S depth) max_depth) ch 5
    | None => []
    end.

Fixpoint extract_class_names (node : Node) (depth max_depth : nat) {struct node} : list pystr :=
  if (max_depth <? depth)%nat then []
  else
    let class_name := get_str className node in
    (if str_truthy class_name then [last_segment 46 class_name] else []) ++
    match children node with
    | Some ch => visit_first (fun child => extract_class_names child (S depth) max_depth) ch 3
    | None => []
    end.

(** [f"{time.time() % 10000:.0f}"] for a clock read in milliseconds: the
    seconds modulo 10000, rounded to the nearest integer, ties to even. *)
Definition clock_suffix (now_ms : Z) : pystr :=
  let r := now_ms mod 10000000 in
  let q := r / 1000 in
  let m := r mod 1000 in
  let rounded :=
    if 500 <? m then q + 1
    else if m <? 500 then q
    else if Z.even q then q else q + 1 in
  str_of_nat (Z.to_nat rounded).

Definition _generate_screen_signature `{PyRuntime} (now_ms : Z) (ui_hierarchy : Node) : pystr :=
  if negb (node_truthy ui_hierarchy) then py "empty"
  else
    let texts := extract_texts ui_hierarchy 0 3 in
    let texts :=
      match texts with
      | [] => texts ++ extract_class_names ui_hierarchy 0 2
      | _ :: _ => texts
      end in
    match texts with
    | _ :: _ =>
        let text_sig := str_join (py "_") (take 3 texts) in
        let text_sig := List.filter (fun c => isalnum c || (c =? 95)%N) text_sig in
        if (30 <? length text_sig)%nat then take 30 text_sig else text_sig
    | [] => py "screen_" ++ clock_suffix now_ms
    end.

(** Two nodes agree on an attribute within a depth cap and a child cap:
    the attribute is the same at both, and, above the depth cap, their
    first [width] children agree pairwise. What lies beyond the caps is
    unconstrained. *)
#[local] Unset Elimination Schemes.
Inductive agree_upto (attr : Node -> pystr) (max_depth width : nat) : nat -> Node -> Node -> Prop :=
| agree_node depth n1 n2 :
    attr n1 = attr n2 ->
    ((depth < max_depth)%nat ->
     Forall2 (agree_upto attr max_depth width (S depth))
             (take width (get_children n1)) (take width (get_children n2))) ->
    agree_upto attr max_depth width depth n1 n2.
#[local] Set Elimination Schemes.

(** Two trees differ only beyond the traversal caps of the two passes. *)
Definition differ_only_beyond_caps (t1 t2 : Node) : Prop :=
  node_truthy t1 = node_truthy t2 /\
  agree_upto (get_str text) 3 5 0 t1 t2 /\
  agree_upto (get_str className) 2 3 0 t1 t2.

(** The tree gives the signature something to be built from: it is the
    empty dictionary, or one of the two passes collects a string. *)
Definition has_signature_material (t : Node) : Prop :=
  node_truthy t = false \/ extract_texts t 0 3 <> [] \/ extract_class_names t 0 2 <> [].

(** ** Protocol data: [mcp/mcp_protocol.py] *)

(** Values carried in a request's [parameters]. *)
Inductive pyval :=
| PNone
| PBool (b : bool)
| PInt (z : Z)
| PStr (s : pystr)
| PSelector (m : gmap string selval).

Module MCPActionTypes.
Definition CLICK : pystr := py "click".
Definition LAUNCH_APP : pystr := py "launch_app".
Definition PRESS_BACK : pystr := py "press_back".
Definition PRESS_HOME : pystr := py "press_home".
Definition GET_UI_STATE : pystr := py "get_ui_state".
End MCPActionTypes.

(** [Context(session_id=...)] *)
Record Context := mkContext { session_id : option pystr }.

(** [Request.__init__] stores [parameters or {}]. *)
Record Request := mkRequest {
  request_id : pystr;
  action_type : option pystr;
  parameters : gmap pystr pyval;
  context : option Context
}.

Definition new_Request (request_id : pystr) (action_type : option pystr)
    (parameters : option (gmap pystr pyval)) (context : option Context) : Request :=
  mkRequest request_id action_type (default ∅ parameters) context.

(** [DeviceState], as the correlation engine fills it from the decoded
    payload. *)
Record DeviceState := mkDeviceState {
  current_package : option pystr;
  current_activity : option pystr;
  ui_hierarchy : option Node
}.

(** [response.device_state] is a [DeviceState], or the raw string when the
    payload could not be decoded. *)
Inductive device_state_val :=
| DSObject (d : DeviceState)
| DSRaw (s : pystr).

(** The [data] object of a response frame. *)
Record ResponseData := mkResponseData {
  d_status : option pystr;
  d_error : option pystr;
  d_message : option pystr
}.

Record Response := mkResponse {
  r_request_id : option pystr;
  r_status : option pystr;
  r_data : option ResponseData;
  r_error : option pystr;
  r_device_state : option device_state_val
}.

(** ** Exploration sessions: [AppExplorer] *)

Definition MAX_EXPLORE_DEPTH : nat := 5.
Definition MAX_EXPLORE_SCREENS : nat := 15.

Inductive Status := starting | launching | waiting_for_load | ready_to_explore | exploring.

Record QueueItem := mkQueueItem {
  q_screen_id : pystr;
  q_element_id : pystr;
  q_depth : nat
}.

Record ScreenInfo := mkScreenInfo { s_type : pystr; s_activity : pystr }.

Record CurrentScreen := mkCurrentScreen {
  cs_id : pystr;
  cs_type : pystr;
  cs_activity : pystr;
  cs_elements : Dict.t ElementInfo
}.

Record Session := mkSession {
  device_id : pystr;
  package_name : pystr;
  app_name : pystr;
  status : Status;
  current_screen : option CurrentScreen;
  discovered_elements : Dict.t ElementInfo;
  discovered_screens : gmap pystr ScreenInfo;
  exploration_queue : list QueueItem;
  visited_paths : gset (pystr * pystr);
  current_depth : nat;
  start_time : Z;
  waits : nat
}.

Definition set_status (v : Status) (s : Session) : Session :=
  mkSession (device_id s) (package_name s) (app_name s) v (current_screen s)
    (discovered_elements s) (discovered_screens s) (exploration_queue s)
    (visited_paths s) (current_depth s) (start_time s) (waits s).

Definition set_current_screen (v : option CurrentScreen) (s : Session) : Session :=
  mkSession (device_id s) (package_name s) (app_name s) (status s) v
    (discovered_elements s) (discovered_screens s) (exploration_queue s)
    (visited_paths s) (current_depth s) (start_time s) (waits s).

Definition set_discovered_elements (v : Dict.t ElementInfo) (s : Session) : Session :=
  mkSession (device_id s) (package_name s) (app_name s) (status s) (current_screen s)
    v (discovered_screens s) (exploration_queue s)
    (visited_paths s) (current_depth s) (start_time s) (waits s).

Definition set_discovered_screens (v : gmap pystr ScreenInfo) (s : Session) : Session :=
  mkSession (device_id s) (package_name s) (app_name s) (status s) (current_screen s)
    (discovered_elements s) v (exploration_queue s)
    (visited_paths s) (current_depth s) (start_time s) (waits s).

Definition set_exploration_queue (v : list QueueItem) (s : Session) : Session :=
  mkSession (device_id s) (package_name s) (app_name s) (status s) (current_screen s)
    (discovered_elements s) (discovered_screens s) v
    (visited_paths s) (current_depth s) (start_time s) (waits s).

Definition set_visited_paths (v : gset (pystr * pystr)) (s : Session) : Session :=
  mkSession (device_id s) (package_name s) (app_name s) (status s) (current_screen s)
    (discovered_elements s) (discovered_screens s) (exploration_queue s)
    v (current_depth s) (start_time s) (waits s).

Definition set_current_depth (v : nat) (s : Session) : Session :=
  mkSession (device_id s) (package_name s) (app_name s) (status s) (current_screen s)
    (discovered_elements s) (discovered_screens s) (exploration_queue s)
    (visited_paths s) v (start_time s) (waits s).

Definition set_waits (v : nat) (s : Session) : Session :=
  mkSession (device_id s) (package_name s) (app_name s) (status s) (current_screen s)
    (discovered_elements s) (discovered_screens s) (exploration_queue s)
    (visited_paths s) (current_depth s) (start_time s) v.

(** The reason string given to [_end_exploration]. *)
Inductive Reason :=
| DeviceNotFound
| LaunchFailed (error : option pystr)
| MaxScreensReached
| QueueEmpty.

(** The callback a request is sent with: the method that handles its
    response. *)
Inductive Continuation :=
| OnAppLaunched
| CheckAppLoaded
| AnalyzeCurrentScreen
| OnElementClicked
| OnBackPressed.

(** What one run of a handler does last: it sends one request and
    returns, it ends the session, or it returns at once because the
    session no longer exists. *)
Inductive Outcome :=
| Sent (request : Request) (k : Continuation)
| Ended (reason : Reason)
| Returned.

(** The explorer's state as far as one session is concerned:
    [exploration_sessions.get(session_id)] and [visited_screens]. *)
Record Explorer := mkExplorer {
  session : option Session;
  visited_screens : gmap pystr (gset pystr)
}.

(** What a handler reads from outside while it runs: whether
    [device_id in server.devices], the UUID of the request it sends, and
    the clock. *)
Record Env := mkEnv {
  device_present : bool;
  fresh_id : pystr;
  now_ms : Z
}.

Definition crawl_request (env : Env) (sid : pystr) (action : pystr)
    (parameters : option (gmap pystr pyval)) : Request :=
  new_Request (fresh_id env) (Some action) parameters (Some (mkContext (Some sid))).

(** [_end_exploration]: the session is removed. *)
Definition _end_exploration (ex : Explorer) (reason : Reason) : Explorer * Outcome :=
  (mkExplorer None (visited_screens ex), Ended reason).

(** The selector a click is sent with, and the selector left in the
    element: in the last case the element's own dictionary is used and an
    invalid "bounds" entry is popped from it. *)
Definition sel_truthy (v : option selval) : bool :=
  match v with
  | Some (SStr s) => str_truthy s
  | Some (SBounds b) => bounds_truthy b
  | Some (SBool b) => b
  | None => false
  end.

Definition improve_selector (selector : gmap string selval) : gmap string selval :=
  if sel_truthy (selector !! "resourceId") then
    from_option (fun v => {["resourceId" := v]}) ∅ (selector !! "resourceId")
  else if sel_truthy (selector !! "text") then
    from_option (fun v => {["text" := v]}) ∅ (selector !! "text")
  else if sel_truthy (selector !! "contentDescription") then
    from_option (fun v => {["contentDescription" := v]}) ∅ (selector !! "contentDescription")
  else
    match selector !! "bounds" with
    | Some (SBounds b) => if bounds_valid b then selector else delete "bounds" selector
    | _ => selector
    end.

Definition uses_own_selector (selector : gmap string selval) : bool :=
  negb (sel_truthy (selector !! "resourceId") || sel_truthy (selector !! "text")
        || sel_truthy (selector !! "contentDescription")).

Definition with_selector (sel : gmap string selval) (e : ElementInfo) : ElementInfo :=
  mkElementInfo (e_type e) (e_className e) (e_text e) (e_contentDescription e)
    (e_resourceId e) (e_bounds e) (e_clickable e) (e_longClickable e) (e_checkable e)
    (e_checked e) (e_selected e) (e_enabled e) (e_focusable e) (e_focused e)
    (e_scrollable e) sel.

(** [_explore_next_element], with [_click_element] inlined: the two call
    each other until a click is sent or the session ends. [queue] is
    [session["exploration_queue"]]. *)
Fixpoint explore_queue (env : Env) (sid : pystr) (vs : gmap pystr (gset pystr))
    (queue : list QueueItem) (s : Session) {struct queue} : Explorer * Outcome :=
  if (MAX_EXPLORE_SCREENS <=? size (discovered_screens s))%nat
  then _end_exploration (mkExplorer (Some s) vs) MaxScreensReached
  else
    match queue with
    | [] => _end_exploration (mkExplorer (Some s) vs) QueueEmpty
    | next_item :: rest =>
        let s := set_exploration_queue rest s in
        let depth := q_depth next_item in
        if (MAX_EXPLORE_DEPTH <? depth)%nat then explore_queue env sid vs rest s
        else
          let path := (q_screen_id next_item, q_element_id next_item) in
          if bool_decide (path ∈ visited_paths s) then explore_queue env sid vs rest s
          else
            let s := set_visited_paths ({[path]} ∪ visited_paths s) s in
            let s := set_current_depth depth s in
            let element_id := q_element_id next_item in
            match Dict.get element_id (discovered_elements s) with
            | None => explore_queue env sid vs rest s
            | Some element_info =>
                if negb (device_present env)
                then _end_exploration (mkExplorer (Some s) vs) DeviceNotFound
                else
                  let selector := e_selector element_info in
                  if bool_decide (selector = ∅) then explore_queue env sid vs rest s
                  else
                    let improved_selector := improve_selector selector in
                    let s :=
                      if uses_own_selector selector
                      then set_discovered_elements
                             (Dict.set element_id (with_selector improved_selector element_info)
                                       (discovered_elements s)) s
                      else s in
                    (mkExplorer (Some s) vs,
                     Sent (crawl_request env sid MCPActionTypes.CLICK
                             (Some {[py "selector" := PSelector improved_selector]}))
                          OnElementClicked)
            end
    end.

Definition _explore_next_element (env : Env) (sid : pystr) (ex : Explorer) : Explorer * Outcome :=
  match session ex with
  | None => (ex, Returned)
  | Some s => explore_queue env sid (visited_screens ex) (exploration_queue s) s
  end.

(** [_find_clickable_elements]: the entries of [elements], in order, that
    qualify for the exploration queue. *)
Definition clickable_types : list pystr :=
  [py "button"; py "checkbox"; py "radio"; py "switch"; py "spinner"; py "tab"].

Definition kw_login : pystr := [30331; 24405]%N.     (* U+767B U+5F55 *)
Definition kw_register : pystr := [27880; 20876]%N.  (* U+6CE8 U+518C *)

Definition qualifies_for_queue `{PyRuntime} (elem_info : ElementInfo) : bool :=
  e_clickable elem_info
  || bool_decide (e_type elem_info ∈ clickable_types)
  || str_contains (py "item") (str_lower (e_className elem_info))
  || (bool_decide (e_type elem_info = py "text")
      && (str_contains kw_login (e_text elem_info)
          || str_contains kw_register (e_text elem_info)
          || str_contains (py "link") (str_lower (e_className elem_info)))).

Definition _find_clickable_elements `{PyRuntime} (elements : Dict.t ElementInfo)
  : Dict.t ElementInfo :=
  List.filter (fun kv => qualifies_for_queue (snd kv)) elements.

(** [_extract_screen_text] *)
Fixpoint extract_all_texts (node : Node) : list pystr :=
  (if str_truthy (get_str text node) then [get_str text node] else []) ++
  (if str_truthy (get_str contentDescription node)
   then [get_str contentDescription node] else []) ++
  match children node with
  | Some ch => (fix go (l : list Node) : list pystr :=
                  match l with
                  | [] => []
                  | child :: rest => extract_all_texts child ++ go rest
                  end) ch
  | None => []
  end.

Definition _extract_screen_text (ui_hierarchy : Node) : pystr :=
  str_join (py " ") (if node_truthy ui_hierarchy then extract_all_texts ui_hierarchy else []).

(** The dictionary [_parse_device_state] returns; [None] is the empty
    dictionary of its failure paths. *)
Record ParsedState := mkParsedState {
  ps_current_package : pystr;
  ps_current_activity : pystr;
  ps_ui_hierarchy : Node
}.

Definition _parse_device_state (device_state : option device_state_val) : option ParsedState :=
  match device_state with
  | None => None
  | Some (DSRaw _) => None
  | Some (DSObject d) =>
      Some (mkParsedState (default [] (current_package d)) (default [] (current_activity d))
                          (default empty_node (ui_hierarchy d)))
  end.

(** [_identify_screen_type] *)
Definition _identify_screen_type `{PyRuntime} (device_state : ParsedState) : pystr :=
  let current_activity := ps_current_activity device_state in
  let screen_text := _extract_screen_text (ps_ui_hierarchy device_state) in
  let has (kw : pystr) := str_contains kw screen_text in
  let has_lower (kw : string) := str_contains (py kw) (str_lower screen_text) in
  if has kw_login || has_lower "login" then py "login_screen"
  else if has kw_register || has_lower "register" || has_lower "sign up" then py "register_screen"
  else if has [35774; 32622]%N || has_lower "setting" then py "settings_screen"
  else if has [25628; 32034]%N || has_lower "search" then py "search_screen"
  else if has [35814; 24773]%N || has_lower "detail" || has_lower "info" then py "detail_screen"
  else if has [21015; 34920]%N || has_lower "list" then py "list_screen"
  else if has [25773; 25918]%N || has_lower "play" then py "player_screen"
  else if has [28040; 24687]%N || has_lower "message" || has [32842; 22825]%N
       then py "message_screen"
  else if has [20010; 20154]%N || has [25105; 30340]%N || has_lower "profile" || has_lower "my"
       then py "profile_screen"
  else if has [39318; 39029]%N || has_lower "home" || has_lower "main" then py "main_screen"
  else if str_truthy current_activity then
    let activity_name := str_lower (last_segment 46 current_activity) in
    let act (kw : string) := str_contains (py kw) activity_name in
    if act "main" then py "main_screen"
    else if act "login" then py "login_screen"
    else if act "setting" then py "settings_screen"
    else if act "detail" then py "detail_screen"
    else if act "list" then py "list_screen"
    else if act "search" then py "search_screen"
    else if act "player" || act "play" then py "player_screen"
    else activity_name ++ py "_screen"
  else py "unknown_screen".

(** [_count_elements] *)
Fixpoint _count_elements (node : Node) : nat :=
  if negb (node_truthy node) then 0%nat
  else
    (1 + match children node with
         | Some ch => (fix go (l : list Node) : nat :=
                         match l with
                         | [] => 0
                         | child :: rest => _count_elements child + go rest
                         end) ch
         | None => 0
         end)%nat.

Definition is_success (response : Response) : bool :=
  bool_decide (r_status response = Some (py "success")).

(** [_start_screen_exploration] *)
Definition _start_screen_exploration (env : Env) (sid : pystr) (ex : Explorer)
  : Explorer * Outcome :=
  match session ex with
  | None => (ex, Returned)
  | Some s =>
      if negb (device_present env) then _end_exploration ex DeviceNotFound
      else (mkExplorer (Some (set_status exploring s)) (visited_screens ex),
            Sent (crawl_request env sid MCPActionTypes.GET_UI_STATE None) AnalyzeCurrentScreen)
  end.

(** [_go_back_and_continue] *)
Definition _go_back_and_continue (env : Env) (sid : pystr) (ex : Explorer)
  : Explorer * Outcome :=
  match session ex with
  | None => (ex, Returned)
  | Some s =>
      if negb (device_present env) then _end_exploration ex DeviceNotFound
      else (ex, Sent (crawl_request env sid MCPActionTypes.PRESS_BACK None) OnBackPressed)
  end.

(** [_on_back_pressed] *)
Definition _on_back_pressed (env : Env) (sid : pystr) (response : Response) (ex : Explorer)
  : Explorer * Outcome :=
  _explore_next_element env sid ex.

(** [_on_element_clicked] *)
Definition _on_element_clicked (env : Env) (sid : pystr) (response : Response) (ex : Explorer)
  : Explorer * Outcome :=
  match session ex with
  | None => (ex, Returned)
  | Some _ =>
      if negb (is_success response) then _explore_next_element env sid ex
      else _start_screen_exploration env sid ex
  end.

(** The loop of [_analyze_current_screen] that appends the clickable
    elements of a new screen to the queue. *)
Definition enqueue_clickable (screen_id : pystr) (s : Session)
    (clickable_elements : Dict.t ElementInfo) : list QueueItem :=
  foldl (fun queue kv =>
           let path := (screen_id, fst kv) in
           if bool_decide (path ∉ visited_paths s)
              && (length queue <? MAX_EXPLORE_SCREENS)%nat
           then queue ++ [mkQueueItem screen_id (fst kv) (current_depth s + 1)]
           else queue)
        (exploration_queue s) clickable_elements.

(** The part of [_analyze_current_screen] that records a screen not seen
    before: the screen and its elements are stored in the session and the
    clickable elements are queued. The writes to the learner's knowledge
    base ([app_learner.app_knowledge]) are not part of the session and are
    left out. *)
Definition record_screen `{PyRuntime} (s : Session) (vs : gmap pystr (gset pystr))
    (device_state : ParsedState) (screen_id : pystr) : Explorer :=
  let package_name := package_name s in
  let current_activity := ps_current_activity device_state in
  let ui_hierarchy := ps_ui_hierarchy device_state in
  let visited := default ∅ (vs !! package_name) in
  let vs := <[package_name := {[screen_id]} ∪ visited]> vs in
  let screen_type := _identify_screen_type device_state in
  let elements := snd (_identify_all_elements ui_hierarchy) in
  let s := set_current_screen
             (Some (mkCurrentScreen screen_id screen_type current_activity elements)) s in
  let s := set_discovered_screens
             (<[screen_id := mkScreenInfo screen_type current_activity]>
                (discovered_screens s)) s in
  let s := set_discovered_elements (Dict.update (discovered_elements s) elements) s in
  let clickable_elements := _find_clickable_elements elements in
  let s := set_exploration_queue (enqueue_clickable screen_id s clickable_elements) s in
  mkExplorer (Some s) vs.

(** [_analyze_current_screen] *)
Definition _analyze_current_screen `{PyRuntime} (env : Env) (sid : pystr)
    (response : Response) (ex : Explorer) : Explorer * Outcome :=
  match session ex with
  | None => (ex, Returned)
  | Some s =>
      if negb (is_success response) then _go_back_and_continue env sid ex
      else
        match _parse_device_state (r_device_state response) with
        | None => _go_back_and_continue env sid ex
        | Some device_state =>
            if negb (bool_decide (ps_current_package device_state = package_name s))
            then _go_back_and_continue env sid ex
            else
              let screen_signature :=
                _generate_screen_signature (now_ms env) (ps_ui_hierarchy device_state) in
              let screen_id := ps_current_activity device_state ++ py "_" ++ screen_signature in
              if bool_decide (screen_id ∈ default ∅ (visited_screens ex !! package_name s))
              then _explore_next_element env sid ex
              else _explore_next_element env sid
                     (record_screen s (visited_screens ex) device_state screen_id)
        end
  end.

(** [_wait_for_app_load] *)
Definition _wait_for_app_load (env : Env) (sid : pystr) (ex : Explorer) : Explorer * Outcome :=
  match session ex with
  | None => (ex, Returned)
  | Some s =>
      if negb (device_present env) then _end_exploration ex DeviceNotFound
      else if (5 <=? waits s)%nat then
        _start_screen_exploration env sid
          (mkExplorer (Some (set_status ready_to_explore s)) (visited_screens ex))
      else
        (mkExplorer (Some (set_waits (waits s + 1) s)) (visited_screens ex),
         Sent (crawl_request env sid MCPActionTypes.GET_UI_STATE None) CheckAppLoaded)
  end.

(** [_check_app_loaded] *)
Definition _check_app_loaded (env : Env) (sid : pystr) (response : Response) (ex : Explorer)
  : Explorer * Outcome :=
  match session ex with
  | None => (ex, Returned)
  | Some s =>
      if negb (is_success response) then _wait_for_app_load env sid ex
      else
        match _parse_device_state (r_device_state response) with
        | None => _wait_for_app_load env sid ex
        | Some device_state =>
            if negb (bool_decide (ps_current_package device_state = package_name s))
            then _wait_for_app_load env sid ex
            else if (_count_elements (ps_ui_hierarchy device_state) <? 5)%nat
            then _wait_for_app_load env sid ex
            else
              _start_screen_exploration env sid
                (mkExplorer (Some (set_status ready_to_explore s)) (visited_screens ex))
        end
  end.

(** [_on_app_launched] *)
Definition _on_app_launched (env : Env) (sid : pystr) (response : Response) (ex : Explorer)
  : Explorer * Outcome :=
  match session ex with
  | None => (ex, Returned)
  | Some s =>
      if negb (is_success response)
      then _end_exploration ex (LaunchFailed (r_error response))
      else _wait_for_app_load env sid
             (mkExplorer (Some (set_status waiting_for_load s)) (visited_screens ex))
  end.

(** [_launch_app] *)
Definition _launch_app (env : Env) (sid : pystr) (ex : Explorer) : Explorer * Outcome :=
  match session ex with
  | None => (ex, Returned)
  | Some s =>
      if negb (device_present env) then _end_exploration ex DeviceNotFound
      else (mkExplorer (Some (set_status launching s)) (visited_screens ex),
            Sent (crawl_request env sid MCPActionTypes.LAUNCH_APP
                    (Some {[py "packageName" := PStr (package_name s)]}))
                 OnAppLaunched)
  end.

(** [start_app_exploration]: a fresh session, the package's visited
    screens reset, and the launch request. *)
Definition start_app_exploration (env : Env) (sid device_id package_name app_name : pystr)
    (vs : gmap pystr (gset pystr)) : Explorer * Outcome :=
  let s := mkSession device_id package_name app_name starting None [] ∅ [] ∅ 0 (now_ms env) 0 in
  _launch_app env sid (mkExplorer (Some s) (<[package_name := ∅]> vs)).

(** *** The callback chain

    A crawl is driven by the responses to its requests: each response
    runs the continuation of the one outstanding request. *)
Record Crawl := mkCrawl {
  explorer : Explorer;
  outstanding : option Continuation;
  requests : list Request;
  end_reason : option Reason
}.

Definition after (c : Crawl) (r : Explorer * Outcome) : Crawl :=
  match snd r with
  | Sent request k => mkCrawl (fst r) (Some k) (requests c ++ [request]) (end_reason c)
  | Ended reason => mkCrawl (fst r) None (requests c) (Some reason)
  | Returned => mkCrawl (fst r) None (requests c) (end_reason c)
  end.

Definition run_continuation `{PyRuntime} (k : Continuation) (env : Env) (sid : pystr)
    (response : Response) (ex : Explorer) : Explorer * Outcome :=
  match k with
  | OnAppLaunched => _on_app_launched env sid response ex
  | CheckAppLoaded => _check_app_loaded env sid response ex
  | AnalyzeCurrentScreen => _analyze_current_screen env sid response ex
  | OnElementClicked => _on_element_clicked env sid response ex
  | OnBackPressed => _on_back_pressed env sid response ex
  end.

Definition deliver `{PyRuntime} (sid : pystr) (c : Crawl) (ev : Env * Response) : Crawl :=
  match outstanding c with
  | None => c
  | Some k => after c (run_continuation k (fst ev) sid (snd ev) (explorer c))
  end.

Definition start_crawl (env : Env) (sid device_id package_name app_name : pystr)
    (vs : gmap pystr (gset pystr)) : Crawl :=
  after (mkCrawl (mkExplorer None vs) None [] None)
        (start_app_exploration env sid device_id package_name app_name vs).

Definition run_crawl `{PyRuntime} (sid : pystr) (c : Crawl) (events : list (Env * Response)) : Crawl :=
  foldl (deliver sid) c events.

(** ** Device connections: [DeviceConnection] in [mcp/mcp_interface.py] *)

(** The callables this code passes to [send_request]. *)
Inductive Callback :=
| CrawlCallback (sid : pystr) (k : Continuation)
| ActionResponse (sid : pystr) (total : nat)
| CleanupLearningSession (sid : pystr)
| OtherCallback (n : nat).

Record PendingEntry := mkPendingEntry {
  p_request : Request;
  p_callback : Callback
}.

Record DeviceConnection := mkDeviceConnection {
  dc_device_id : pystr;
  connected : bool;
  socket : bool;
  pending_requests : gmap pystr PendingEntry;
  last_seen : Z
}.

(** [DeviceConnection(device_id)] followed by [device.socket = client_socket] *)
Definition new_DeviceConnection (device_id : pystr) (now : Z) : DeviceConnection :=
  mkDeviceConnection device_id true true ∅ now.

Definition set_pending (p : gmap pystr PendingEntry) (d : DeviceConnection) : DeviceConnection :=
  mkDeviceConnection (dc_device_id d) (connected d) (socket d) p (last_seen d).

Definition set_connected (b : bool) (d : DeviceConnection) : DeviceConnection :=
  mkDeviceConnection (dc_device_id d) b (socket d) (pending_requests d) (last_seen d).

Definition set_last_seen (t : Z) (d : DeviceConnection) : DeviceConnection :=
  mkDeviceConnection (dc_device_id d) (connected d) (socket d) (pending_requests d) t.

(** The request message [send_request] serializes. *)
Record RequestMessage := mkRequestMessage {
  m_type : pystr;
  m_requestId : pystr;
  m_actionType : option pystr;
  m_parameters : gmap pystr pyval;
  m_timestamp : Z;
  m_sessionId : option pystr
}.

(** Messages the server writes to a device socket. *)
Inductive Outbound :=
| OutRequest (m : RequestMessage)
| OutHandshakeResponse (timestamp : Z)
| OutWelcome (device_id : pystr) (timestamp : Z)
| OutHeartbeatResponse (timestamp : Z).

(** What a transport operation does to the outside. [Invoke] is a call
    of a continuation, made directly or on a thread of its own. *)
Inductive Effect :=
| Invoke (cb : Callback) (response : Response)
| Write (message : Outbound)
| StartWatchdog (request_id : pystr)
| Sleep (milliseconds : pyval)
| CloseSocket.

(** [Response(request_id=..., status="error", error=...)] *)
Definition error_response (request_id : pystr) (error : pystr) : Response :=
  mkResponse (Some request_id) (Some (py "error")) None (Some error) None.

Definition serialize_request (request : Request) (now : Z) : RequestMessage :=
  let session :=
    match context request with
    | Some ctx =>
        match session_id ctx with
        | Some sid => if str_truthy sid then Some sid else None
        | None => None
        end
    | None => None
    end in
  mkRequestMessage (py "request") (request_id request) (action_type request)
                   (parameters request) now session.

(** [DeviceConnection.send_request]. [send_error] is the text of the
    exception that serializing or [socket.sendall] raises, if any. *)
Definition send_request (self : DeviceConnection) (request : Request)
    (callback : option Callback) (now : Z) (send_error : option pystr)
  : DeviceConnection * list Effect :=
  if negb (connected self) || negb (socket self) then
    (self,
     match callback with
     | Some cb => [Invoke cb (error_response (request_id request) (py "Device not connected"))]
     | None => []
     end)
  else
    match send_error with
    | None =>
        let written := Write (OutRequest (serialize_request request now)) in
        match callback with
        | Some cb =>
            (set_pending (<[request_id request := mkPendingEntry request cb]>
                            (pending_requests self)) self,
             [written; StartWatchdog (request_id request)])
        | None => (self, [written])
        end
    | Some e =>
        (self,
         match callback with
         | Some cb => [Invoke cb (error_response (request_id request) e)]
         | None => []
         end)
    end.

(** The two steps of [timeout_handler] after its sleep: the membership
    test, and the pop that invokes the callback of the entry it removes. *)
Definition timeout_test (self : DeviceConnection) (request_id : pystr) : bool :=
  bool_decide (is_Some (pending_requests self !! request_id)).

Definition timeout_pop (self : DeviceConnection) (request_id : pystr)
  : DeviceConnection * list Effect :=
  match pending_requests self !! request_id with
  | Some request_info =>
      (set_pending (delete request_id (pending_requests self)) self,
       [Invoke (p_callback request_info) (error_response request_id (py "Request timed out"))])
  | None => (self, [])
  end.

(** ** Inbound frames *)

(** A decoded frame, typed as the wire protocol has it. *)
Record Frame := mkFrame {
  f_type : option pystr;
  f_deviceId : option pystr;
  f_requestId : option pystr;
  f_data : option ResponseData;
  f_eventType : option pystr;
  f_sessionId : option pystr
}.

(** The JSON codec and [str()]: [decode_frame] is [bytes.decode('utf-8')]
    followed by [json.loads], [None] when either raises or the value is
    not an object; [decode_state] is [json.loads] on the state payload. *)
Class Codec := {
  decode_frame : list Byte.byte -> option Frame;
  decode_state : pystr -> option DeviceState;
  str_of_value : pyval -> pystr
}.

(** The two steps of the response branch of [_handle_client_message] on
    the device the frame is routed to: the membership test, and the pop
    that builds the [Response] and dispatches the callback. *)
Definition response_test (device : DeviceConnection) (message : Frame) : bool :=
  match f_requestId message with
  | Some request_id => bool_decide (is_Some (pending_requests device !! request_id))
  | None => false
  end.

Definition build_device_state `{Codec} (original_request : Request)
    (response_data : ResponseData) : option device_state_val :=
  if bool_decide (action_type original_request = Some MCPActionTypes.GET_UI_STATE) then
    match d_message response_data with
    | Some device_state_str =>
        if str_truthy device_state_str then
          match decode_state device_state_str with
          | Some d => Some (DSObject d)
          | None => Some (DSRaw device_state_str)
          end
        else None
    | None => None
    end
  else None.

Definition response_pop `{Codec} (device : DeviceConnection) (message : Frame)
  : DeviceConnection * list Effect :=
  match f_requestId message with
  | Some request_id =>
      match pending_requests device !! request_id with
      | Some request_info =>
          let response_data := default (mkResponseData None None None) (f_data message) in
          let response :=
            mkResponse (Some request_id) (d_status response_data) (Some response_data)
                       (d_error response_data)
                       (build_device_state (p_request request_info) response_data) in
          (set_pending (delete request_id (pending_requests device)) device,
           [Invoke (p_callback request_info) response])
      | None => (device, [])
      end
  | None => (device, [])
  end.


(** ** The server: [MCPServer] *)

Record SessionContext := mkSessionContext {
  sc_device_id : pystr;
  sc_user_instruction : option pystr;
  sc_active : bool;
  sc_created_at : Z;
  sc_last_updated : Z
}.

(** The registry [self.devices] and the session table [self.sessions]. A
    [DeviceConnection] object outlives its registry entry: the watchdogs
    of its requests keep it. *)
Record MCPServer := mkMCPServer {
  devices : gmap pystr DeviceConnection;
  sessions : gmap pystr SessionContext
}.



(** ** Handshake: [MCPServer._handle_handshake] and [_handle_client] *)

(** What a blocking [recv] meets next on the socket: after [delay] time
    units a chunk arrives; the empty chunk is the peer closing. When the
    list is exhausted nothing arrives any more. *)
Record Arrival := mkArrival {
  delay : N;
  chunk : list Byte.byte
}.

Definition HANDSHAKE_TIMEOUT : N := 10.

Definition newline : Byte.byte := Byte.x0a.

Definition has_newline (buffer : list Byte.byte) : bool :=
  existsb (Byte.eqb newline) buffer.

(** [buffer[:buffer.find(b'\n')]] *)
Fixpoint before_newline (buffer : list Byte.byte) : list Byte.byte :=
  match buffer with
  | [] => []
  | b :: rest => if Byte.eqb newline b then [] else b :: before_newline rest
  end.

(** The receive loop of the handshake, under [settimeout(10.0)]:
    [while b'\n' not in buffer_bytes: chunk = recv(4096) ...]. [None] when
    a [recv] times out or returns the empty chunk. *)
Fixpoint recv_until_newline (arrivals : list Arrival) (buffer : list Byte.byte)
  : option (list Byte.byte) :=
  if has_newline buffer then Some buffer
  else
    match arrivals with
    | [] => None
    | a :: rest =>
        if (HANDSHAKE_TIMEOUT <=? delay a)%N then None
        else
          match chunk a with
          | [] => None
          | _ :: _ => recv_until_newline rest (buffer ++ chunk a)
          end
    end.

(** [_handle_handshake]: the device id, and what was written. [write_ok]
    tells whether [sendall] of the reply succeeds. *)
Definition _handle_handshake `{Codec} (arrivals : list Arrival) (now : Z) (write_ok : bool)
  : option pystr * list Effect :=
  match recv_until_newline arrivals [] with
  | None => (None, [])
  | Some buffer_bytes =>
      match decode_frame (before_newline buffer_bytes) with
      | None => (None, [])
      | Some message =>
          if negb (bool_decide (f_type message = Some (py "handshake"))) then (None, [])
          else
            match f_deviceId message with
            | None => (None, [])
            | Some device_id =>
                if negb (str_truthy device_id) then (None, [])
                else if write_ok then (Some device_id, [Write (OutHandshakeResponse now)])
                else (None, [])
            end
      end
  end.

(** The cleanup in the [finally] block of [_handle_client]: the device
    registered under the id is marked disconnected and removed from the
    registry. The second component is the object removed. *)
Definition cleanup_device (srv : MCPServer) (device_id : pystr)
  : MCPServer * option DeviceConnection * list Effect :=
  match devices srv !! device_id with
  | Some device =>
      (mkMCPServer (delete device_id (devices srv)) (sessions srv),
       Some (set_connected false device), [CloseSocket])
  | None => (srv, None, [CloseSocket])
  end.

(** [_handle_client] up to its receive loop: handshake, registration and
    welcome message. When the welcome message cannot be written the
    [finally] block runs at once. *)
Definition accept_client `{Codec} (srv : MCPServer) (arrivals : list Arrival) (now : Z)
    (handshake_write_ok welcome_write_ok : bool) : MCPServer * list Effect :=
  match _handle_handshake arrivals now handshake_write_ok with
  | (None, effects) => (srv, effects ++ [CloseSocket; CloseSocket])
  | (Some device_id, effects) =>
      let device := new_DeviceConnection device_id now in
      let srv := mkMCPServer (<[device_id := device]> (devices srv)) (sessions srv) in
      if welcome_write_ok then (srv, effects ++ [Write (OutWelcome device_id now)])
      else
        let '(srv, _, closing) := cleanup_device srv device_id in
        (srv, effects ++ closing)
  end.

(** The time at which the first complete line is in the buffer, when
    every chunk is taken as it arrives. *)
Fixpoint line_arrival_time (arrivals : list Arrival) (elapsed : N) : option N :=
  match arrivals with
  | [] => None
  | a :: rest =>
      match chunk a with
      | [] => None
      | _ :: _ =>
          if has_newline (chunk a) then Some (elapsed + delay a)%N
          else line_arrival_time rest (elapsed + delay a)%N
      end
  end.

(** ** Command execution: [MCPServer._execute_actions] *)

Record Action := mkAction {
  a_action : option pystr;
  a_params : option (gmap pystr pyval)
}.

(** The request built for one action; [uuid] is [str(uuid.uuid4())]. *)
Definition action_request `{Codec} (session_id : pystr) (uuid : pystr) (action : Action) : Request :=
  let action_type := a_action action in
  let params := default ∅ (a_params action) in
  let ctx := Some (mkContext (Some session_id)) in
  if bool_decide (action_type = Some MCPActionTypes.LAUNCH_APP) then
    match params !! py "fullComponent" with
    | Some full_component =>
        new_Request uuid action_type (Some {[py "component" := full_component]}) ctx
    | None =>
        match params !! py "packageName", params !! py "activityName" with
        | Some package, Some activity =>
            let full_component := str_of_value package ++ py "/" ++ str_of_value activity in
            new_Request uuid action_type (Some {[py "component" := PStr full_component]}) ctx
        | _, _ => new_Request uuid action_type (Some params) ctx
        end
    end
  else new_Request uuid action_type (Some params) ctx.

(** What the loop reads from outside for one action. *)
Record SendIO := mkSendIO {
  io_uuid : pystr;
  io_now : Z;
  io_send_error : option pystr
}.

Fixpoint execute_loop `{Codec} (device : DeviceConnection) (session_id : pystr) (total : nat)
    (actions : list (Action * SendIO)) : DeviceConnection * list Effect :=
  match actions with
  | [] => (device, [])
  | (action, io) :: rest =>
      let request := action_request session_id (io_uuid io) action in
      let '(device, sent) :=
        send_request device request (Some (ActionResponse session_id total))
                     (io_now io) (io_send_error io) in
      let waiting :=
        if bool_decide (a_action action = Some (py "wait")) then
          match default ∅ (a_params action) !! py "milliseconds" with
          | Some ms => [Sleep ms]
          | None => []
          end
        else [] in
      let '(device, later) := execute_loop device session_id total rest in
      (device, sent ++ waiting ++ later)
  end.

Definition _execute_actions `{Codec} (device : DeviceConnection) (session_id : pystr)
    (actions : list (Action * SendIO)) : DeviceConnection * list Effect :=
  execute_loop device session_id (length actions) actions.

(** ** One device connection and its threads

    The view of one [DeviceConnection] object under concurrency. The
    threads that touch it are: callers of [send_request]; the timeout
    thread of each stored request; the connection threads, which handle
    the frames routed to the object's device id while the registry maps
    the id to the object, and run the cleanup; and a later connection
    that registers under the same id. Operations on the pending table are
    atomic; the response branch runs under [devices_lock], the timeout
    thread takes no lock, so its two steps interleave freely with the two
    steps of the response branch. *)

Inductive wd_pc := WdSleeping | WdFound | WdDone.

Record Watchdog := mkWatchdog {
  wd_request_id : pystr;
  wd_state : wd_pc
}.

Record System := mkSystem {
  dev : DeviceConnection;
  registered : bool;
  watchdogs : list Watchdog;
  reader : option Frame;
  log : list (Callback * Response)
}.

Inductive Step :=
| StepSend (request : Request) (callback : option Callback) (now : Z) (send_error : option pystr)
| StepWatchdog (i : nat)
| StepFrame (message : Frame) (now : Z)
| StepReaderPop
| StepCleanup
| StepReplace.

(** The continuation calls and the timeout threads among the effects of a
    transport operation. *)
Definition invocations (effects : list Effect) : list (Callback * Response) :=
  omap (fun e => match e with Invoke cb r => Some (cb, r) | _ => None end) effects.

Definition spawned (effects : list Effect) : list Watchdog :=
  omap (fun e => match e with StartWatchdog rid => Some (mkWatchdog rid WdSleeping) | _ => None end)
       effects.

Definition exec `{Codec} (step : Step) (s : System) : System :=
  match step with
  | StepSend request callback now send_error =>
      let '(d, effects) := send_request (dev s) request callback now send_error in
      mkSystem d (registered s) (watchdogs s ++ spawned effects) (reader s)
               (log s ++ invocations effects)
  | StepWatchdog i =>
      match watchdogs s !! i with
      | Some (mkWatchdog rid WdSleeping) =>
          let next := if timeout_test (dev s) rid then WdFound else WdDone in
          mkSystem (dev s) (registered s) (<[i := mkWatchdog rid next]> (watchdogs s))
                   (reader s) (log s)
      | Some (mkWatchdog rid WdFound) =>
          let '(d, effects) := timeout_pop (dev s) rid in
          mkSystem d (registered s) (<[i := mkWatchdog rid WdDone]> (watchdogs s))
                   (reader s) (log s ++ invocations effects)
      | _ => s
      end
  | StepFrame message now =>
      match reader s with
      | Some _ => s
      | None =>
          if negb (registered s) then s
          else if bool_decide (f_type message = Some (py "heartbeat")) then
            mkSystem (set_last_seen now (dev s)) (registered s) (watchdogs s) None (log s)
          else if bool_decide (f_type message = Some (py "response")) then
            if response_test (dev s) message
            then mkSystem (dev s) (registered s) (watchdogs s) (Some message) (log s)
            else s
          else s
      end
  | StepReaderPop =>
      match reader s with
      | Some message =>
          let '(d, effects) := response_pop (dev s) message in
          mkSystem d (registered s) (watchdogs s) None (log s ++ invocations effects)
      | None => s
      end
  | StepCleanup =>
      match reader s with
      | Some _ => s
      | None =>
          if registered s
          then mkSystem (set_connected false (dev s)) false (watchdogs s) None (log s)
          else s
      end
  | StepReplace =>
      match reader s with
      | Some _ => s
      | None => mkSystem (dev s) false (watchdogs s) None (log s)
      end
  end.

(** A schedule is a list of steps, run in order. *)
Definition run `{Codec} (schedule : list Step) (s : System) : System :=
  foldl (fun s step => exec step s) s schedule.

(** The number of calls made to continuations with a response for the
    request id. *)
Definition calls (rid : pystr) (l : list (Callback * Response)) : nat :=
  length (List.filter (fun cr => bool_decide (r_request_id (snd cr) = Some rid)) l).

(** The step does not send a request under the id. *)
Definition other_id (rid : pystr) (step : Step) : Prop :=
  match step with
  | StepSend request _ _ _ => request_id request <> rid
  | _ => True
  end.

(** Every timeout thread of the id has run to its end. *)
Definition watchdogs_done (rid : pystr) (s : System) : Prop :=
  forall wd, wd ∈ watchdogs s -> wd_request_id wd = rid -> wd_state wd = WdDone.

(** ** A codec for running the definitions

    JSON text is written with apostrophes in place of double quotes; the
    sample codec decodes the one handshake line used in the examples. *)
#[global] Instance byte_eq_decision : EqDecision Byte.byte := Strings.Byte.byte_eq_dec.

Definition wire (text : string) : list Byte.byte :=
  map (fun b => if Byte.eqb b Byte.x27 then Byte.x22 else b) (list_byte_of_string text).

Definition sample_handshake : list Byte.byte :=
  wire "{'type':'handshake','deviceId':'dev1'}".

Definition sample_codec : Codec :=
  {| decode_frame := fun bytes =>
       if bool_decide (bytes = sample_handshake)
       then Some (mkFrame (Some (py "handshake")) (Some (py "dev1")) None None None None)
       else None;
     decode_state := fun _ => None;
     str_of_value := fun v => match v with PStr s => s | _ => [] end |}.

(** The handshake succeeds with [device_id]: some prefix of the arrivals,
    each within the receive bound and none the closing of the peer, holds
    a complete line; the line decodes to a frame of type "handshake" with
    a non-empty [deviceId]; and the reply is written. *)
Definition handshake_accepted `{Codec} (arrivals : list Arrival) (write_ok : bool)
    (device_id : pystr) : Prop :=
  exists n message,
    Forall (fun a => (delay a < HANDSHAKE_TIMEOUT)%N /\ chunk a <> []) (take n arrivals) /\
    has_newline (concat (chunk <$> take n arrivals)) = true /\
    decode_frame (before_newline (concat (chunk <$> take n arrivals))) = Some message /\
    f_type message = Some (py "handshake") /\
    f_deviceId message = Some device_id /\
    device_id <> [] /\
    write_ok = true.

(** * Properties *)

(** ** Selector synthesis *)

Lemma copy_flags_nonempty node (l : list (string * (Node -> option bool)))
    (sel : gmap string selval) :
  sel ≠ ∅ -> foldl (copy_flag node) sel l ≠ ∅.
Proof.
  revert sel. induction l as [|kf l IH]; intros sel Hne; simpl; [done|].
  apply IH. unfold copy_flag. destruct (snd kf node); [|done].
  apply insert_non_empty.
Qed.

Lemma copy_flags_absent node (sel : gmap string selval) :
  clickable node = None -> enabled node = None -> selected node = None ->
  focusable node = None -> scrollable node = None ->
  foldl (copy_flag node) sel basic_flags = sel.
Proof.
  intros H1 H2 H3 H4 H5. unfold basic_flags, copy_flag. simpl.
  by rewrite H1, H2, H3, H4, H5.
Qed.

Definition sample_node : Node :=
  mkNode (Some (py "android.view.View")) None None None
         (Some (mkBounds (Some 10) (Some 0) (Some 10) (Some 5)))
         None None None None None None None None None None None None None.


Definition no_qualifying_attribute (node : Node) : Prop :=
  str_truthy (get_str viewIdResourceName node) = false /\
  str_truthy (get_str text node) = false /\
  str_truthy (get_str contentDescription node) = false /\
  str_truthy (get_str className node) = false /\
  match bounds node with
  | Some b => bounds_truthy b && bounds_valid b = false
  | None => True
  end /\
  clickable node = None /\ enabled node = None /\ selected node = None /\
  focusable node = None /\ scrollable node = None.

(** A node whose only keys are [className] and [bounds]. *)
Definition class_and_bounds_node (c : pystr) (b : Bounds) : Node :=
  mkNode (Some c) None None None (Some b)
         None None None None None None None None None None None None None.

(** C6. Selector synthesis never returns an empty selector: the returned
    dictionary always has a key; for a node whose only keys are a class
    name and a bounds box with right <= left or bottom <= top the selector
    has no "bounds" key and is not empty; and for a node none of whose
    attributes qualifies the selector is exactly the fallback marker
    [{"fallback": "true"}]. *)
Theorem selector_never_empty :
  (forall node, _create_selector_for_element node ≠ ∅) /\
  (forall c b,
      bget b_right b <= bget b_left b \/ bget b_bottom b <= bget b_top b ->
      _create_selector_for_element (class_and_bounds_node c b) !! "bounds" = None /\
      _create_selector_for_element (class_and_bounds_node c b) ≠ ∅) /\
  (forall node,
      no_qualifying_attribute node ->
      _create_selector_for_element node = {["fallback" := SStr (py "true")]}).
Proof.
  assert (Hne : forall node, _create_selector_for_element node ≠ ∅).
  { intros node. unfold _create_selector_for_element. cbv zeta.
    case_bool_decide as Hempty; [apply insert_non_empty | exact Hempty]. }
  split; [exact Hne|]. split.
  - intros c b Hinv. split; [|apply Hne].
    assert (Hv : bounds_valid b = false).
    { unfold bounds_valid. apply andb_false_iff.
      destruct Hinv; [left | right]; apply Z.ltb_ge; done. }
    unfold _create_selector_for_element, class_and_bounds_node. cbn.
    rewrite Hv, andb_false_r.
    destruct (str_truthy c).
    + case_bool_decide; by simplify_map_eq.
    + case_bool_decide; by simplify_map_eq.
  - intros node (Hr & Ht & Hd & Hc & Hb & F1 & F2 & F3 & F4 & F5).
    unfold _create_selector_for_element. cbv zeta.
    rewrite Hr, Ht, Hd, Hc. cbn [andb].
    assert (Hsel : match bounds node with
                   | Some bounds =>
                       if bounds_truthy bounds && bounds_valid bounds
                       then <["bounds" := SBounds bounds]> (∅ : gmap string selval)
                       else ∅
                   | None => ∅
                   end = ∅).
    { destruct (bounds node) as [b|]; [by rewrite Hb | done]. }
    rewrite Hsel, copy_flags_absent by done.
    rewrite bool_decide_eq_true_2 by done. apply insert_empty.
Qed.

Lemma selector_never_empty_witness :
  _create_selector_for_element sample_node !! "bounds" = None /\
  _create_selector_for_element sample_node ≠ ∅ /\
  _create_selector_for_element empty_node = {["fallback" := SStr (py "true")]}.
Proof.
  destruct selector_never_empty as (_ & Hb & Hf).
  destruct (Hb (py "android.view.View")
               (mkBounds (Some 10) (Some 0) (Some 10) (Some 5))) as [H1 H2].
  { left. vm_compute. discriminate. }
  split; [exact H1|]. split; [exact H2|].
  apply Hf. unfold no_qualifying_attribute. simpl. tauto.
Defined.

(** ** Element enumeration *)

Lemma Dict_keys_set {V} (k k' : pystr) (v : V) (d : Dict.t V) :
  k' ∈ Dict.keys (Dict.set k v d) <-> k' = k \/ k' ∈ Dict.keys d.
Proof.
  unfold Dict.keys. induction d as [|[k0 v0] d IH]; simpl.
  - rewrite list_elem_of_singleton. set_solver.
  - case_bool_decide as Hk; simpl; rewrite !elem_of_cons.
    + subst. tauto.
    + rewrite IH. tauto.
Qed.

Lemma traverse_node_eq node parent_path index parent elements :
  traverse_node node parent_path index parent elements =
  let node_id := node_id_of parent_path index in
  let node1 := annotate node index parent in
  let elements :=
    if recorded node1
    then Dict.set (py "element_" ++ node_id) (element_info node1) elements
    else elements in
  match children node with
  | None => (node1, elements)
  | Some ch =>
      let '(ch', elements') :=
        traverse_children
          (fun child i els => traverse_node child node_id i (Some node1) els)
          ch 0%nat elements in
      (set_children (Some ch') node1, elements')
  end.
Proof. destruct node; reflexivity. Qed.

Lemma annotate_fields node idx parent :
  let n' := annotate node idx parent in
  className n' = className node /\ text n' = text node /\
  contentDescription n' = contentDescription node /\
  viewIdResourceName n' = viewIdResourceName node /\
  clickable n' = clickable node /\ children n' = children node /\
  index n' = Some (Z.of_nat idx) /\
  bounds n' = repair_bounds <$> bounds node.
Proof.
  unfold annotate. destruct parent as [p|]; [destruct (node_truthy p)|]; simpl; tauto.
Qed.

Lemma recorded_annotate node index parent :
  recorded (annotate node index parent) = recorded node.
Proof.
  destruct (annotate_fields node index parent) as (_ & Ht & Hd & Hr & Hc & _).
  unfold recorded, get_str, get_flag. by rewrite Ht, Hd, Hr, Hc.
Qed.

(** The identifiers [traverse_children] adds are those of the subtrees of
    the children, provided each visit adds those of its own subtree. *)
Section TraverseKeys.
Variable id : pystr.

Definition from_subtree (node : Node) (parent_path : pystr) (index : nat) : Prop :=
  exists p n, subtree_at node p = Some n /\ recorded n = true /\
              id = py "element_" ++ path_id_from parent_path index p.

Definition visit_adds (node : Node) : Prop :=
  forall parent_path index parent els,
    id ∈ Dict.keys (snd (traverse_node node parent_path index parent els)) <->
    id ∈ Dict.keys els \/ from_subtree node parent_path index.

Lemma traverse_children_keys node_id node1 (l : list Node) :
  Forall visit_adds l ->
  forall i els,
    id ∈ Dict.keys (snd (traverse_children
           (fun child i els => traverse_node child node_id i (Some node1) els) l i els)) <->
    id ∈ Dict.keys els \/
    exists j c, l !! j = Some c /\ from_subtree c node_id (i + j).
Proof.
  induction 1 as [|c l Hc Hl IH]; intros i els; simpl.
  - split; [tauto|]. intros [?|(j & c & Hj & _)]; [done|]. by destruct j.
  - destruct (traverse_node c node_id i (Some node1) els) as [c' els1] eqn:Hvisit.
    destruct (traverse_children _ l (S i) els1) as [rest' els2] eqn:Hrest.
    simpl. specialize (IH (S i) els1). rewrite Hrest in IH. simpl in IH.
    specialize (Hc node_id i (Some node1) els). rewrite Hvisit in Hc. simpl in Hc.
    rewrite IH, Hc. split.
    + intros [[?|Hs]|(j & d & Hj & Hs)]; [tauto| |].
      * right. exists 0%nat, c. by rewrite Nat.add_0_r.
      * right. exists (S j), d. split; [done|]. by rewrite Nat.add_succ_r.
    + intros [?|(j & d & Hj & Hs)]; [tauto|]. destruct j as [|j]; simpl in Hj.
      * injection Hj as <-. rewrite Nat.add_0_r in Hs. tauto.
      * right. exists j, d. split; [done|]. by rewrite Nat.add_succ_r in Hs.
Qed.

Lemma traverse_node_keys node : visit_adds node.
Proof.
  induction node as [node IH] using Node_ind'.
  intros parent_path index parent els. rewrite traverse_node_eq. cbv zeta.
  rewrite recorded_annotate.
  set (node1 := annotate node index parent).
  set (node_id := node_id_of parent_path index).
  set (els0 := if recorded node then _ else els).
  assert (Hels0 : id ∈ Dict.keys els0 <->
            id ∈ Dict.keys els \/ (recorded node = true /\ id = py "element_" ++ node_id)).
  { subst els0. destruct (recorded node); [rewrite Dict_keys_set|]; naive_solver. }
  unfold get_children in IH.
  destruct (children node) as [ch|] eqn:Hch; simpl in IH.
  - pose proof (traverse_children_keys node_id node1 ch IH 0%nat els0) as Hkeys.
    destruct (traverse_children _ ch 0%nat els0) as [ch' els'] eqn:Htc.
    simpl in *. rewrite Hkeys, Hels0. unfold from_subtree. split.
    + intros [[?|[Hr ->]]|(j & c & Hj & p & n & Hp & Hn & ->)]; [tauto| |].
      * right. by exists [], node.
      * right. exists (j :: p), n. simpl. unfold get_children. rewrite Hch. simpl.
        by rewrite Hj.
    + intros [?|(p & n & Hp & Hn & ->)]; [tauto|]. destruct p as [|j p]; simpl in Hp.
      * injection Hp as <-. tauto.
      * unfold get_children in Hp. rewrite Hch in Hp. simpl in Hp.
        destruct (ch !! j) as [c|] eqn:Hj; [|done].
        right. exists j, c. split; [done|]. by exists p, n.
  - simpl. rewrite Hels0. unfold from_subtree. split.
    + intros [?|[Hr ->]]; [tauto|]. right. by exists [], node.
    + intros [?|(p & n & Hp & Hn & ->)]; [tauto|]. destruct p as [|j p]; simpl in Hp.
      * injection Hp as <-. tauto.
      * unfold get_children in Hp. rewrite Hch in Hp. by destruct j.
Qed.
End TraverseKeys.

Lemma all_nodes_subtree f (t : Node) p n :
  all_nodes f t = true -> subtree_at t p = Some n -> f n = true.
Proof.
  revert t. induction p as [|i p IH]; intros t Hall Hp; simpl in Hp.
  - injection Hp as <-. destruct t. simpl in Hall. by apply andb_true_iff in Hall as [? _].
  - destruct (get_children t !! i) as [c|] eqn:Hi; [|done].
    apply (IH c); [|done]. unfold get_children in Hi.
    destruct t as [? ? ? ? ? ? ? ? ? ? ? ? ? ? ? ch ? ?]. simpl in *.
    apply andb_true_iff in Hall as [_ Hall].
    destruct ch as [l|]; [|done]. simpl in Hi.
    revert i Hi. induction l as [|d l IHl]; intros i Hi; [done|].
    apply andb_true_iff in Hall as [Hd Hl]. destruct i as [|i]; simpl in Hi.
    + by injection Hi as <-.
    + by apply (IHl Hl i).
Qed.

(** A decorative node: a class name and a valid box, nothing else. *)
Definition decorative (ch : list Node) : Node :=
  mkNode (Some (py "android.widget.LinearLayout")) None None None
         (Some (mkBounds (Some 0) (Some 0) (Some 100) (Some 40)))
         None None None None None None None None None None (Some ch) None None.

(** A tree of 20 decorative nodes: a root, three rows of five leaves, and
    one more leaf. *)
Definition decorative_tree : Node :=
  let row := decorative (replicate 5 (decorative [])) in
  decorative [row; row; row; decorative []].

(** C7. Element enumeration records a node if and only if it has a
    non-empty text, a non-empty content description, a non-empty resource
    id or [clickable] true: the identifiers in the returned map are exactly
    those of the nodes of the tree that satisfy this; consequently a tree
    none of whose nodes satisfies it yields the empty map. *)
Theorem elements_recorded_iff (t : Node) :
  (forall id,
      id ∈ Dict.keys (snd (_identify_all_elements t)) <->
      exists p n, subtree_at t p = Some n /\ recorded n = true /\ id = element_id_at p) /\
  ((forall p n, subtree_at t p = Some n -> recorded n = false) ->
   snd (_identify_all_elements t) = []).
Proof.
  assert (Hiff : forall id,
      id ∈ Dict.keys (snd (_identify_all_elements t)) <->
      exists p n, subtree_at t p = Some n /\ recorded n = true /\ id = element_id_at p).
  { intros id. unfold _identify_all_elements.
    rewrite (traverse_node_keys id t [] 0%nat None []). unfold from_subtree, element_id_at.
    simpl. rewrite elem_of_nil. tauto. }
  split; [exact Hiff|]. intros Hnone.
  destruct (snd (_identify_all_elements t)) as [|[k v] d]; [done|]. exfalso.
  destruct (proj1 (Hiff k)) as (p & n & Hp & Hn & _); [simpl; set_solver|].
  rewrite (Hnone p n Hp) in Hn. discriminate.
Qed.

Lemma decorative_subtrees p n :
  subtree_at decorative_tree p = Some n -> recorded n = false.
Proof.
  intros Hp. apply negb_true_iff.
  apply (all_nodes_subtree (fun n => negb (recorded n)) decorative_tree p n); [reflexivity | exact Hp].
Qed.

Lemma elements_recorded_iff_witness :
  count_nodes decorative_tree = 20%nat /\ snd (_identify_all_elements decorative_tree) = [].
Proof.
  split; [reflexivity|].
  exact (proj2 (elements_recorded_iff decorative_tree) decorative_subtrees).
Defined.

(** ** The enumeration rewrites the tree it is given *)

Lemma traverse_children_lookup visit (l : list Node) j c :
  l !! j = Some c ->
  forall i els, exists els',
    fst (traverse_children visit l i els) !! j = Some (fst (visit c (i + j)%nat els')).
Proof.
  revert j. induction l as [|d l IH]; intros j Hj i els; [done|]. simpl.
  destruct (visit d i els) as [d' els1] eqn:Hd.
  destruct (traverse_children visit l (S i) els1) as [rest' els2] eqn:Hrest.
  destruct j as [|j]; simpl in *.
  - injection Hj as <-. exists els. by rewrite Nat.add_0_r, Hd.
  - destruct (IH j Hj (S i) els1) as [els' Hl]. exists els'.
    rewrite Hrest in Hl. simpl in Hl. by rewrite Nat.add_succ_r.
Qed.

Lemma traverse_node_children node parent_path idx par els j c :
  get_children node !! j = Some c ->
  exists els',
    get_children (fst (traverse_node node parent_path idx par els)) !! j =
    Some (fst (traverse_node c (node_id_of parent_path idx) j
                 (Some (annotate node idx par)) els')).
Proof.
  intros Hj. rewrite traverse_node_eq. cbv zeta. unfold get_children in Hj.
  destruct (children node) as [ch|]; [|done]. simpl in Hj.
  match goal with |- context [traverse_children ?f ch 0%nat ?e] =>
    destruct (traverse_children_lookup f ch j c Hj 0%nat e) as [els' Hl];
    destruct (traverse_children f ch 0%nat e) as [ch' els2] end.
  exists els'. simpl in *. exact Hl.
Qed.

Lemma traverse_node_root node parent_path idx par els :
  let n' := fst (traverse_node node parent_path idx par els) in
  index n' = Some (Z.of_nat idx) /\
  bounds n' = repair_bounds <$> bounds node /\
  parent n' = parent (annotate node idx par).
Proof.
  rewrite traverse_node_eq. cbv zeta.
  destruct (annotate_fields node idx par) as (_ & _ & _ & _ & _ & _ & Hi & Hb).
  destruct (children node) as [ch|].
  - destruct (traverse_children _ ch 0%nat _) as [ch' els']. simpl. tauto.
  - simpl. tauto.
Qed.

Lemma annotate_truthy node idx par : node_truthy (annotate node idx par) = true.
Proof.
  destruct (annotate_fields node idx par) as (_ & _ & _ & _ & _ & _ & Hi & _).
  unfold node_truthy. rewrite Hi. apply orb_true_r.
Qed.

Lemma annotate_className node idx par :
  get_str className (annotate node idx par) = get_str className node.
Proof.
  destruct (annotate_fields node idx par) as (Hc & _). unfold get_str. by rewrite Hc.
Qed.

Lemma annotate_parent_truthy node idx pr :
  node_truthy pr = true ->
  parent (annotate node idx (Some pr)) = Some (get_str className pr).
Proof. intros Hpr. unfold annotate. by rewrite Hpr. Qed.

Lemma last_cons_default (j : nat) p d : List.last (j :: p) d = List.last p j.
Proof.
  revert j d. induction p as [|k p IH]; intros j d; [done|].
  change (List.last (k :: p) d = List.last (k :: p) j). by rewrite (IH k d), (IH k j).
Qed.

Lemma traverse_node_subtree p :
  forall node parent_path idx par els n,
    subtree_at node p = Some n ->
    exists n',
      subtree_at (fst (traverse_node node parent_path idx par els)) p = Some n' /\
      index n' = Some (Z.of_nat (List.last p idx)) /\
      bounds n' = repair_bounds <$> bounds n /\
      (p = [] -> parent n' = parent (annotate node idx par)) /\
      (forall q i m, p = q ++ [i] -> subtree_at node q = Some m ->
                     parent n' = Some (get_str className m)).
Proof.
  induction p as [|j p IH]; intros node parent_path idx par els n Hp; simpl in Hp.
  - injection Hp as <-.
    destruct (traverse_node_root node parent_path idx par els) as (Hi & Hb & Hpar).
    eexists. split; [reflexivity|]. repeat split; try done.
    intros q i m Hq. by destruct q.
  - destruct (get_children node !! j) as [c|] eqn:Hj; [|done].
    destruct (traverse_node_children node parent_path idx par els j c Hj) as [els' Hc].
    destruct (IH c (node_id_of parent_path idx) j (Some (annotate node idx par)) els' n Hp)
      as (n' & Hn' & Hi & Hb & Hroot & Hdeep).
    exists n'. rewrite last_cons_default. cbn [subtree_at]. rewrite Hc.
    split; [exact Hn'|]. repeat split; try done.
    intros q i m Hq Hm. destruct q as [|k q]; simpl in Hq, Hm.
    + injection Hq as <- ->. injection Hm as <-.
      rewrite (Hroot eq_refl), annotate_parent_truthy by apply annotate_truthy.
      by rewrite annotate_className.
    + injection Hq as <- ->. rewrite Hj in Hm. by apply (Hdeep q i m).
Qed.

Lemma repair_bounds_spec b :
  bounds_truthy b = true ->
  (bget b_right b <= bget b_left b -> b_right (repair_bounds b) = Some (bget b_left b + 10)) /\
  (bget b_bottom b <= bget b_top b -> b_bottom (repair_bounds b) = Some (bget b_top b + 10)) /\
  b_left (repair_bounds b) = b_left b /\ b_top (repair_bounds b) = b_top b.
Proof.
  intros Ht. unfold repair_bounds, bounds_valid. rewrite Ht. simpl.
  destruct (bget b_left b <? bget b_right b) eqn:Hw;
    destruct (bget b_top b <? bget b_bottom b) eqn:Hh; simpl;
    repeat match goal with |- context [?x <=? ?y] => destruct (Z.leb_spec x y) end;
    simpl in *; unfold bget in *; simpl in *; repeat split; try done; intros; try lia.
Qed.

(** A frame with a zero-area box and no recordable attribute, holding a
    clickable button. *)
Definition sample_frame : Node :=
  mkNode (Some (py "android.widget.FrameLayout")) None None None
         (Some (mkBounds (Some 5) (Some 0) (Some 5) (Some 0)))
         None None None None None None None None None None
         (Some [mkNode (Some (py "android.widget.Button")) (Some (py "OK")) None None None
                       (Some true) None None None None None None None None None
                       None None None])
         None None.

(** C10. Element enumeration rewrites the tree it is given: after it,
    every node carries an "index" key with its position among its
    siblings (0 at the root), every node below the root carries a "parent"
    key holding its parent's class name, and every non-empty bounds
    dictionary with right <= left or bottom <= top has right = left + 10
    and/or bottom = top + 10, whether or not the node is recorded as an
    element; so a tree that arrives without an "index" key at its root is
    not left unchanged. *)
Theorem enumeration_mutates_tree (t : Node) :
  (forall p n,
      subtree_at t p = Some n ->
      exists n',
        subtree_at (fst (_identify_all_elements t)) p = Some n' /\
        index n' = Some (Z.of_nat (List.last p 0%nat)) /\
        (forall q i m, p = q ++ [i] -> subtree_at t q = Some m ->
                       parent n' = Some (get_str className m)) /\
        (forall b, bounds n = Some b -> bounds_truthy b = true ->
           exists b', bounds n' = Some b' /\
             (bget b_right b <= bget b_left b -> b_right b' = Some (bget b_left b + 10)) /\
             (bget b_bottom b <= bget b_top b -> b_bottom b' = Some (bget b_top b + 10)))) /\
  (index t = None -> fst (_identify_all_elements t) <> t).
Proof.
  split.
  - intros p n Hp. unfold _identify_all_elements.
    destruct (traverse_node_subtree p t [] 0%nat None [] n Hp)
      as (n' & Hn' & Hi & Hb & _ & Hpar).
    exists n'. repeat split; try done.
    intros b Hbn Ht. exists (repair_bounds b). rewrite Hb, Hbn. split; [done|].
    destruct (repair_bounds_spec b Ht) as (Hr & Hbt & _). by split.
  - intros Hnone Heq. unfold _identify_all_elements in Heq.
    destruct (traverse_node_root t [] 0%nat None []) as (Hi & _).
    cbv zeta in Hi. rewrite Heq, Hnone in Hi. discriminate.
Qed.

Lemma enumeration_mutates_tree_witness :
  recorded sample_frame = false /\
  (exists n',
      subtree_at (fst (_identify_all_elements sample_frame)) [] = Some n' /\
      index n' = Some 0 /\
      exists b', bounds n' = Some b' /\ b_right b' = Some 15 /\ b_bottom b' = Some 10) /\
  (exists n',
      subtree_at (fst (_identify_all_elements sample_frame)) [0%nat] = Some n' /\
      index n' = Some 0 /\
      parent n' = Some (py "android.widget.FrameLayout")) /\
  fst (_identify_all_elements sample_frame) <> sample_frame.
Proof.
  destruct (enumeration_mutates_tree sample_frame) as [Hnodes Hchanged].
  split; [reflexivity|]. split; [|split].
  - destruct (Hnodes [] sample_frame eq_refl) as (n' & Hn' & Hi & _ & Hb).
    exists n'. split; [exact Hn'|]. split; [exact Hi|].
    destruct (Hb (mkBounds (Some 5) (Some 0) (Some 5) (Some 0)) eq_refl eq_refl)
      as (b' & Hb' & Hr & Hbt).
    exists b'. split; [exact Hb'|]. split; [apply Hr | apply Hbt]; vm_compute; discriminate.
  - destruct (Hnodes [0%nat] _ eq_refl) as (n' & Hn' & Hi & Hpar & _).
    exists n'. split; [exact Hn'|]. split; [exact Hi|].
    exact (Hpar [] 0%nat sample_frame eq_refl eq_refl).
  - apply Hchanged. reflexivity.
Defined.

(** ** Screen signature *)

Lemma visit_first_flat_map {A} (f : Node -> list A) l w :
  visit_first f l w = flat_map f (take w l).
Proof.
  revert w. induction l as [|c l IH]; intros [|w]; simpl; try done. by rewrite IH.
Qed.

Lemma extract_texts_eq node depth max_depth :
  extract_texts node depth max_depth =
  if (max_depth <? depth)%nat then []
  else
    (if str_truthy (get_str text node) && (1 <? length (get_str text node))%nat
     then [get_str text node] else []) ++
    flat_map (fun child => extract_texts child (S depth) max_depth)
             (take 5 (get_children node)).
Proof.
  destruct node as [? ? ? ? ? ? ? ? ? ? ? ? ? ? ? ch ? ?]. simpl.
  destruct ch; simpl; [by rewrite visit_first_flat_map | done].
Qed.

Lemma extract_class_names_eq node depth max_depth :
  extract_class_names node depth max_depth =
  if (max_depth <? depth)%nat then []
  else
    (if str_truthy (get_str className node)
     then [last_segment 46 (get_str className node)] else []) ++
    flat_map (fun child => extract_class_names child (S depth) max_depth)
             (take 3 (get_children node)).
Proof.
  destruct node as [? ? ? ? ? ? ? ? ? ? ? ? ? ? ? ch ? ?]. simpl.
  destruct ch; simpl; [by rewrite visit_first_flat_map | done].
Qed.

Lemma flat_map_all_nil {A B} (f : A -> list B) l :
  (forall x, f x = []) -> flat_map f l = [].
Proof. intros Hf. induction l as [|x l IH]; simpl; [done|]. by rewrite Hf, IH. Qed.

Lemma flat_map_agree {A B} (R : A -> A -> Prop) (f : A -> list B) l1 l2 :
  Forall (fun x => forall y, R x y -> f x = f y) l1 ->
  Forall2 R l1 l2 -> flat_map f l1 = flat_map f l2.
Proof.
  intros Hall H2. induction H2 as [|x y l1 l2 Hxy _ IH]; [done|].
  apply Forall_cons in Hall as [Hx Hl]. simpl. by rewrite (Hx y Hxy), IH.
Qed.

(** Both passes follow one scheme: a pass that is the empty list beyond
    its depth cap and otherwise a function of the attribute followed by
    the pass over the first [width] children depends only on what
    [agree_upto] constrains. *)
Lemma pass_agree (attr : Node -> pystr) (pick : pystr -> list pystr)
    (pass : Node -> nat -> nat -> list pystr) (max_depth width : nat) :
  (forall node depth,
      pass node depth max_depth =
      if (max_depth <? depth)%nat then []
      else pick (attr node) ++
           flat_map (fun child => pass child (S depth) max_depth)
                    (take width (get_children node))) ->
  forall n1 n2 depth,
    agree_upto attr max_depth width depth n1 n2 ->
    pass n1 depth max_depth = pass n2 depth max_depth.
Proof.
  intros Heq n1. induction n1 as [n1 IH] using Node_ind'. intros n2 depth Hag.
  inversion Hag as [d m1 m2 Hattr Hch]; subst. rewrite !Heq.
  destruct (Nat.ltb_spec max_depth depth) as [|Hle]; [done|].
  rewrite Hattr. f_equal.
  destruct (Nat.lt_ge_cases depth max_depth) as [Hlt|Hge].
  - apply (flat_map_agree (agree_upto attr max_depth width (S depth))); [|by apply Hch].
    apply Forall_take. eapply Forall_impl; [exact IH|]. intros c Hc y Hy. by apply Hc.
  - assert (Hnil : forall c, pass c (S depth) max_depth = []).
    { intros c. rewrite Heq. destruct (Nat.ltb_spec max_depth (S depth)); [done | lia]. }
    by rewrite !flat_map_all_nil.
Qed.

Lemma extract_texts_agree n1 n2 depth :
  agree_upto (get_str text) 3 5 depth n1 n2 ->
  extract_texts n1 depth 3 = extract_texts n2 depth 3.
Proof.
  apply (pass_agree (get_str text)
           (fun t => if str_truthy t && (1 <? length t)%nat then [t] else [])
           extract_texts 3 5).
  intros node d. apply extract_texts_eq.
Qed.

Lemma extract_class_names_agree n1 n2 depth :
  agree_upto (get_str className) 2 3 depth n1 n2 ->
  extract_class_names n1 depth 2 = extract_class_names n2 depth 2.
Proof.
  apply (pass_agree (get_str className)
           (fun c => if str_truthy c then [last_segment 46 c] else [])
           extract_class_names 2 3).
  intros node d. apply extract_class_names_eq.
Qed.

Lemma agree_upto_refl attr max_depth width n : forall depth,
  agree_upto attr max_depth width depth n n.
Proof.
  induction n as [n IH] using Node_ind'. intros depth. constructor; [done|].
  intros _. apply Forall_Forall2_diag, Forall_take.
  eapply Forall_impl; [exact IH|]. intros c Hc. apply Hc.
Qed.

Lemma differ_only_beyond_caps_refl t : differ_only_beyond_caps t t.
Proof. split; [done|]. split; apply agree_upto_refl. Qed.

(** A tree with one key and neither text nor class name. *)
Definition bare_clickable : Node :=
  mkNode None None None None None (Some true)
         None None None None None None None None None None None None.

(** C4, as stated, fails: the same tree read at two clock values gets two
    different signatures. *)
Lemma signature_time_dependent :
  ~ (forall (rt : PyRuntime) (now1 now2 : Z) (t1 t2 : Node),
        t1 = t2 ->
        @_generate_screen_signature rt now1 t1 = @_generate_screen_signature rt now2 t2).
Proof.
  intros Hdet.
  specialize (Hdet ascii_runtime 1000 2000 bare_clickable bare_clickable eq_refl).
  vm_compute in Hdet. discriminate.
Qed.

(** C4 (amended). Whenever the tree is the empty dictionary or one of the
    two passes collects a string, the signature is a function of the tree
    alone, whatever the clock: identical trees get equal signatures, and
    so do two trees that differ only beyond the traversal caps (text pass:
    depth > 3 or child position >= 5; class-name pass: depth > 2 or child
    position >= 3). Otherwise the signature is the clock placeholder, and
    the same holds for equal clock values. *)
Theorem signature_bounded_sensitivity `{PyRuntime} (now1 now2 : Z) :
  (forall t,
      has_signature_material t \/ now1 = now2 ->
      _generate_screen_signature now1 t = _generate_screen_signature now2 t) /\
  (forall t1 t2,
      differ_only_beyond_caps t1 t2 ->
      has_signature_material t1 \/ now1 = now2 ->
      _generate_screen_signature now1 t1 = _generate_screen_signature now2 t2).
Proof.
  assert (Hmain : forall t1 t2,
      differ_only_beyond_caps t1 t2 ->
      has_signature_material t1 \/ now1 = now2 ->
      _generate_screen_signature now1 t1 = _generate_screen_signature now2 t2).
  { intros t1 t2 (Htruthy & Htext & Hclass) Hmat. unfold _generate_screen_signature.
    rewrite <- Htruthy, <- (extract_texts_agree t1 t2 0 Htext),
      <- (extract_class_names_agree t1 t2 0 Hclass).
    destruct (node_truthy t1) eqn:Ht1; simpl; [|done].
    destruct (extract_texts t1 0 3) as [|x xs] eqn:Hx; [|done]. simpl.
    destruct (extract_class_names t1 0 2) as [|c cs] eqn:Hc; [|done].
    destruct Hmat as [[Hm|[Hm|Hm]]| ->]; congruence. }
  split; [|exact Hmain].
  intros t. apply Hmain, differ_only_beyond_caps_refl.
Qed.

(** Two screens that differ only in their sixth child. *)
Definition text_node (t : string) (ch : list Node) : Node :=
  mkNode (Some (py "android.widget.TextView")) (Some (py t)) None None None
         None None None None None None None None None None (Some ch) None None.

Definition wide_screen (sixth : string) : Node :=
  text_node "Home" (replicate 5 (text_node "ab" []) ++ [text_node sixth []]).

Lemma signature_bounded_sensitivity_witness :
  wide_screen "Inbox" <> wide_screen "Trash" /\
  @_generate_screen_signature ascii_runtime 1000 (wide_screen "Inbox") =
  @_generate_screen_signature ascii_runtime 2000 (wide_screen "Trash").
Proof.
  split; [discriminate|].
  apply (proj2 (@signature_bounded_sensitivity ascii_runtime 1000 2000)).
  - split; [reflexivity|].
    split; (constructor; [reflexivity|]; intros _; simpl;
            repeat (constructor; try apply agree_upto_refl)).
  - left. right. left. vm_compute. discriminate.
Defined.

(** ** Exploration caps *)

(** Evaluate the handlers without unfolding the comparisons with the caps. *)
Ltac crunch := cbn -[Nat.leb Nat.ltb size].

#[local] Arguments py : simpl never.
#[local] Arguments _explore_next_element : simpl never.
#[local] Arguments _start_screen_exploration : simpl never.
#[local] Arguments _go_back_and_continue : simpl never.
#[local] Arguments _wait_for_app_load : simpl never.

(** What the continuation of an outstanding request may assume about the
    number [n] of discovered screens. *)
Definition continuation_ok (k : Continuation) (n : nat) : Prop :=
  match k with
  | OnAppLaunched | CheckAppLoaded => n = 0%nat
  | AnalyzeCurrentScreen | OnElementClicked => (n < MAX_EXPLORE_SCREENS)%nat
  | OnBackPressed => True
  end.

Definition good (r : Explorer * Outcome) : Prop :=
  match session (fst r) with
  | None => True
  | Some s =>
      (size (discovered_screens s) <= MAX_EXPLORE_SCREENS)%nat /\
      match snd r with
      | Sent _ k => continuation_ok k (size (discovered_screens s))
      | _ => True
      end
  end.

#[local] Arguments good : simpl never.

Lemma explore_queue_good env sid vs queue : forall s,
  good (explore_queue env sid vs queue s).
Proof.
  induction queue as [|item rest IH]; intros s; crunch.
  - destruct (Nat.leb_spec MAX_EXPLORE_SCREENS (size (discovered_screens s))); exact I.
  - destruct (Nat.leb_spec MAX_EXPLORE_SCREENS (size (discovered_screens s))) as [|Hlt];
      [exact I|].
    destruct (MAX_EXPLORE_DEPTH <? q_depth item)%nat; [apply IH|].
    case_bool_decide; [apply IH|].
    destruct (Dict.get _ _) as [info|]; [|apply IH].
    destruct (device_present env); crunch; [|exact I].
    case_bool_decide; [apply IH|].
    unfold good. crunch. destruct (uses_own_selector _); crunch; split; lia.
Qed.

Lemma _explore_next_element_good env sid ex : good (_explore_next_element env sid ex).
Proof.
  unfold _explore_next_element. destruct (session ex) as [s|] eqn:Hs.
  - apply explore_queue_good.
  - unfold good. crunch. by rewrite Hs.
Qed.

Lemma _start_screen_exploration_good env sid ex :
  (forall s, session ex = Some s -> (size (discovered_screens s) < MAX_EXPLORE_SCREENS)%nat) ->
  good (_start_screen_exploration env sid ex).
Proof.
  intros Hlt. unfold _start_screen_exploration, good.
  destruct (session ex) as [s|] eqn:Hs; crunch; [|by rewrite Hs].
  destruct (device_present env); crunch; [|exact I].
  specialize (Hlt s eq_refl). split; [lia | exact Hlt].
Qed.

Lemma _go_back_and_continue_good env sid ex :
  (forall s, session ex = Some s -> (size (discovered_screens s) <= MAX_EXPLORE_SCREENS)%nat) ->
  good (_go_back_and_continue env sid ex).
Proof.
  intros Hle. unfold _go_back_and_continue, good.
  destruct (session ex) as [s|] eqn:Hs; crunch; [|by rewrite Hs].
  destruct (device_present env); crunch; [|exact I].
  rewrite Hs. split; [by apply Hle | exact I].
Qed.

Lemma _wait_for_app_load_good env sid ex :
  (forall s, session ex = Some s -> size (discovered_screens s) = 0%nat) ->
  good (_wait_for_app_load env sid ex).
Proof.
  intros Hz. unfold _wait_for_app_load.
  destruct (session ex) as [s|] eqn:Hs; [|by unfold good; crunch; rewrite Hs].
  destruct (device_present env); crunch; [|exact I].
  specialize (Hz s eq_refl).
  destruct (5 <=? waits s)%nat.
  - apply _start_screen_exploration_good. crunch. intros s' [= <-]. crunch.
    rewrite Hz. unfold MAX_EXPLORE_SCREENS. lia.
  - unfold good. crunch. rewrite Hz. split; [lia | done].
Qed.

Lemma size_insert_le (m : gmap pystr ScreenInfo) k v :
  (size (<[k := v]> m) <= S (size m))%nat.
Proof.
  destruct (m !! k) as [w|] eqn:Hk.
  - rewrite <- (insert_delete_eq m k v), map_size_insert_None by apply lookup_delete_eq.
    rewrite <- (insert_delete_id m k w Hk) at 2.
    rewrite map_size_insert_None by apply lookup_delete_eq. lia.
  - rewrite map_size_insert_None by done. lia.
Qed.

Lemma _analyze_current_screen_good `{PyRuntime} env sid response ex :
  (forall s, session ex = Some s -> (size (discovered_screens s) < MAX_EXPLORE_SCREENS)%nat) ->
  good (_analyze_current_screen env sid response ex).
Proof.
  intros Hlt. unfold _analyze_current_screen.
  destruct ex as [[s|] vs]; [crunch | exact I].
  pose (ex := mkExplorer (Some s) vs).
  assert (Hback : good (_go_back_and_continue env sid ex)).
  { apply _go_back_and_continue_good. intros s' Hs'. specialize (Hlt s' Hs'). lia. }
  destruct (is_success response); crunch; [|exact Hback].
  destruct (_parse_device_state _) as [device_state|]; [|exact Hback].
  case_bool_decide; crunch; [|exact Hback].
  case_bool_decide; apply _explore_next_element_good.
Qed.

Lemma _check_app_loaded_good env sid response ex :
  (forall s, session ex = Some s -> size (discovered_screens s) = 0%nat) ->
  good (_check_app_loaded env sid response ex).
Proof.
  intros Hz. unfold _check_app_loaded.
  destruct ex as [[s|] vs]; [crunch | exact I].
  pose (ex := mkExplorer (Some s) vs).
  assert (Hwait : good (_wait_for_app_load env sid ex)) by by apply _wait_for_app_load_good.
  destruct (is_success response); crunch; [|exact Hwait].
  destruct (_parse_device_state _) as [device_state|]; [|exact Hwait].
  case_bool_decide; crunch; [|exact Hwait].
  destruct (_ <? 5)%nat; [exact Hwait|].
  apply _start_screen_exploration_good. crunch. intros s' [= <-]. crunch.
  rewrite (Hz s eq_refl). unfold MAX_EXPLORE_SCREENS. lia.
Qed.

Lemma _on_app_launched_good env sid response ex :
  (forall s, session ex = Some s -> size (discovered_screens s) = 0%nat) ->
  good (_on_app_launched env sid response ex).
Proof.
  intros Hz. unfold _on_app_launched.
  destruct ex as [[s|] vs]; [crunch | exact I].
  pose (ex := mkExplorer (Some s) vs).
  destruct (is_success response); crunch; [|exact I].
  apply _wait_for_app_load_good. crunch. intros s' [= <-]. exact (Hz s eq_refl).
Qed.

Lemma _on_element_clicked_good env sid response ex :
  (forall s, session ex = Some s -> (size (discovered_screens s) < MAX_EXPLORE_SCREENS)%nat) ->
  good (_on_element_clicked env sid response ex).
Proof.
  intros Hlt. unfold _on_element_clicked.
  destruct ex as [[s|] vs]; [crunch | exact I].
  pose (ex := mkExplorer (Some s) vs).
  destruct (is_success response); crunch.
  - by apply _start_screen_exploration_good.
  - apply _explore_next_element_good.
Qed.

(** The invariant of a crawl. *)
Definition crawl_inv (c : Crawl) : Prop :=
  match session (explorer c) with
  | None => True
  | Some s =>
      (size (discovered_screens s) <= MAX_EXPLORE_SCREENS)%nat /\
      match outstanding c with
      | Some k => continuation_ok k (size (discovered_screens s))
      | None => True
      end
  end.

Lemma after_good c r : good r -> crawl_inv (after c r).
Proof.
  unfold good, crawl_inv, after. destruct r as [ex out]. simpl.
  destruct out; simpl; destruct (session ex); tauto.
Qed.

Lemma deliver_inv `{PyRuntime} sid c ev : crawl_inv c -> crawl_inv (deliver sid c ev).
Proof.
  intros Hinv. unfold deliver. destruct (outstanding c) as [k|] eqn:Hk; [|exact Hinv].
  apply after_good. unfold crawl_inv in Hinv. rewrite Hk in Hinv.
  assert (Hk' : forall s, session (explorer c) = Some s ->
                          continuation_ok k (size (discovered_screens s))).
  { intros s Hs. rewrite Hs in Hinv. tauto. }
  destruct k; simpl.
  - by apply _on_app_launched_good.
  - by apply _check_app_loaded_good.
  - by apply _analyze_current_screen_good.
  - by apply _on_element_clicked_good.
  - apply _explore_next_element_good.
Qed.

Lemma start_crawl_inv env sid device_id package_name app_name vs :
  crawl_inv (start_crawl env sid device_id package_name app_name vs).
Proof.
  apply after_good. unfold start_app_exploration, _launch_app, good. simpl.
  destruct (device_present env); simpl; [|exact I].
  rewrite map_size_empty. split; [lia | done].
Qed.

Lemma run_crawl_inv `{PyRuntime} sid events : forall c,
  crawl_inv c -> crawl_inv (run_crawl sid c events).
Proof.
  induction events as [|ev events IH]; intros c Hinv; [exact Hinv|].
  apply IH. by apply deliver_inv.
Qed.

Lemma record_screen_size `{PyRuntime} s vs device_state screen_id :
  (size (discovered_screens s) < MAX_EXPLORE_SCREENS)%nat ->
  exists s', session (record_screen s vs device_state screen_id) = Some s' /\
             (size (discovered_screens s') <= MAX_EXPLORE_SCREENS)%nat.
Proof.
  intros Hlt. eexists. split; [reflexivity|]. crunch.
  pose proof (size_insert_le (discovered_screens s) screen_id
                (mkScreenInfo (_identify_screen_type device_state)
                              (ps_current_activity device_state))). lia.
Qed.

(** A click that [_explore_next_element] sends is for an item of the
    queue whose depth is within the cap. *)
Lemma explore_queue_click env sid vs queue : forall s ex' request k,
  explore_queue env sid vs queue s = (ex', Sent request k) ->
  exists item s',
    item ∈ queue /\ (q_depth item <= MAX_EXPLORE_DEPTH)%nat /\
    session ex' = Some s' /\ current_depth s' = q_depth item /\
    action_type request = Some MCPActionTypes.CLICK.
Proof.
  induction queue as [|item rest IH]; intros s ex' request k; crunch.
  - destruct (_ <=? _)%nat; discriminate.
  - assert (Hrest : forall s0,
        explore_queue env sid vs rest s0 = (ex', Sent request k) ->
        exists it s', it ∈ item :: rest /\ (q_depth it <= MAX_EXPLORE_DEPTH)%nat /\
          session ex' = Some s' /\ current_depth s' = q_depth it /\
          action_type request = Some MCPActionTypes.CLICK).
    { intros s0 Hs0. destruct (IH s0 ex' request k Hs0) as (it & s' & Hin & Hrest).
      exists it, s'. split; [by apply list_elem_of_further | exact Hrest]. }
    destruct (_ <=? _)%nat; [discriminate|].
    destruct (Nat.ltb_spec MAX_EXPLORE_DEPTH (q_depth item)) as [|Hdepth]; [apply Hrest|].
    case_bool_decide; [apply Hrest|].
    destruct (Dict.get _ _) as [info|]; [|apply Hrest].
    destruct (device_present env); crunch; [|discriminate].
    case_bool_decide; [apply Hrest|].
    intros [= <- <- <-]. exists item. eexists. split; [apply list_elem_of_here|].
    split; [exact Hdepth|]. split; [reflexivity|].
    split; [by destruct (uses_own_selector _) | reflexivity].
Qed.

(** A crawl over six responses: launch, load, a first screen holding a
    button, the click on it, and the same screen seen again. *)
Definition loaded (t : Node) : Response :=
  mkResponse None (Some (py "success")) None None
    (Some (DSObject (mkDeviceState (Some (py "com.example.app"))
                                   (Some (py "com.example.app.MainActivity")) (Some t)))).

Definition sample_env (now : Z) : Env := mkEnv true (py "request") now.

Definition sample_crawl : Crawl :=
  @run_crawl ascii_runtime (py "session")
    (start_crawl (sample_env 0) (py "session") (py "dev1") (py "com.example.app")
                 (py "Example") ∅)
    [(sample_env 1, loaded empty_node);
     (sample_env 2, loaded decorative_tree);
     (sample_env 3, loaded sample_frame);
     (sample_env 4, loaded sample_frame)].

(** A session at the screen cap and a session whose queue starts with an
    item below the depth cap. *)
Definition sample_session (screens : gmap pystr ScreenInfo) (queue : list QueueItem) : Session :=
  mkSession (py "dev1") (py "com.example.app") (py "Example") exploring None
            [] screens queue ∅ 0 0 0.

Definition fifteen_screens : gmap pystr ScreenInfo :=
  list_to_map (map (fun i => (str_of_nat i, mkScreenInfo (py "main_screen") (py "Main")))
                   (seq 0 15)).

Definition deep_item : QueueItem := mkQueueItem (py "Main_Home") (py "element_0/0") 6.

(** C3. Throughout an exploration session the map of discovered screens
    never holds more than [MAX_EXPLORE_SCREENS] = 15 entries: this holds
    after every response of the callback chain, and of the map as
    [_analyze_current_screen] leaves it when it records a screen; with 15
    screens discovered [_explore_next_element] ends the session and sends
    nothing. A dequeued item whose depth exceeds [MAX_EXPLORE_DEPTH] = 5
    is skipped: the result is that of the rest of the queue, and any click
    sent is for an item of depth at most 5. *)
Theorem exploration_caps `{PyRuntime} :
  (forall env sid device_id package_name app_name vs events s,
      let c := run_crawl sid (start_crawl env sid device_id package_name app_name vs) events in
      session (explorer c) = Some s ->
      (size (discovered_screens s) <= MAX_EXPLORE_SCREENS)%nat /\
      (outstanding c = Some AnalyzeCurrentScreen ->
       forall device_state screen_id,
       exists s', session (record_screen s (visited_screens (explorer c))
                                         device_state screen_id) = Some s' /\
                  (size (discovered_screens s') <= MAX_EXPLORE_SCREENS)%nat)) /\
  (forall env sid ex s,
      session ex = Some s ->
      (MAX_EXPLORE_SCREENS <= size (discovered_screens s))%nat ->
      _explore_next_element env sid ex =
      (mkExplorer None (visited_screens ex), Ended MaxScreensReached)) /\
  (forall env sid vs s item rest,
      exploration_queue s = item :: rest ->
      (MAX_EXPLORE_DEPTH < q_depth item)%nat ->
      _explore_next_element env sid (mkExplorer (Some s) vs) =
      _explore_next_element env sid (mkExplorer (Some (set_exploration_queue rest s)) vs)) /\
  (forall env sid ex s ex' request k,
      session ex = Some s ->
      _explore_next_element env sid ex = (ex', Sent request k) ->
      exists item s',
        item ∈ exploration_queue s /\ (q_depth item <= MAX_EXPLORE_DEPTH)%nat /\
        session ex' = Some s' /\ current_depth s' = q_depth item /\
        action_type request = Some MCPActionTypes.CLICK).
Proof.
  split; [|split; [|split]].
  - intros env sid device_id package_name app_name vs events s c Hs.
    pose proof (run_crawl_inv sid events _
                  (start_crawl_inv env sid device_id package_name app_name vs)) as Hinv.
    fold c in Hinv. unfold crawl_inv in Hinv. rewrite Hs in Hinv.
    destruct Hinv as [Hle Hk]. split; [exact Hle|].
    intros Hout device_state screen_id. rewrite Hout in Hk.
    by apply record_screen_size.
  - intros env sid ex s Hs Hcap. unfold _explore_next_element. rewrite Hs.
    destruct (exploration_queue s); crunch;
      destruct (Nat.leb_spec MAX_EXPLORE_SCREENS (size (discovered_screens s))); try lia; done.
  - intros env sid vs s item rest Hq Hdepth. unfold _explore_next_element. crunch.
    rewrite Hq. crunch.
    destruct (Nat.ltb_spec MAX_EXPLORE_DEPTH (q_depth item)); [|lia].
    destruct (Nat.leb_spec MAX_EXPLORE_SCREENS (size (discovered_screens s))) as [Hcap|Hcap].
    + destruct rest; crunch;
        destruct (Nat.leb_spec MAX_EXPLORE_SCREENS (size (discovered_screens s))); try lia; done.
    + done.
  - intros env sid ex s ex' request k Hs. unfold _explore_next_element. rewrite Hs.
    apply explore_queue_click.
Qed.

Lemma exploration_caps_witness :
  (exists s, session (explorer sample_crawl) = Some s /\
             (size (discovered_screens s) <= MAX_EXPLORE_SCREENS)%nat) /\
  _explore_next_element (sample_env 5) (py "session")
    (mkExplorer (Some (sample_session fifteen_screens [deep_item])) ∅) =
  (mkExplorer None ∅, Ended MaxScreensReached) /\
  _explore_next_element (sample_env 5) (py "session")
    (mkExplorer (Some (sample_session ∅ [deep_item])) ∅) =
  _explore_next_element (sample_env 5) (py "session")
    (mkExplorer (Some (sample_session ∅ [])) ∅).
Proof.
  destruct (@exploration_caps ascii_runtime) as (Hscreens & Hcap & Hskip & _).
  split; [|split].
  - destruct (session (explorer sample_crawl)) as [s|] eqn:Hs; [|by vm_compute in Hs].
    exists s. split; [reflexivity|].
    exact (proj1 (Hscreens (sample_env 0) (py "session") (py "dev1") (py "com.example.app")
                    (py "Example") ∅ _ s Hs)).
  - refine (Hcap (sample_env 5) (py "session")
                  (mkExplorer (Some (sample_session fifteen_screens [deep_item])) ∅)
                  _ eq_refl _).
    vm_compute. lia.
  - apply (Hskip (sample_env 5) (py "session") ∅ (sample_session ∅ [deep_item]) deep_item []);
      [reflexivity|]. vm_compute. lia.
Defined.

(** ** Response correlation *)

Definition idle_device : DeviceConnection := new_DeviceConnection (py "dev1") 0.

Definition launch_request : Request :=
  mkRequest (py "req-1") (Some MCPActionTypes.LAUNCH_APP)
            {[py "packageName" := PStr (py "com.example.app")]}
            (Some (mkContext (Some (py "session")))).

(** A device with one request pending. *)
Definition busy_device : DeviceConnection :=
  set_pending {[py "req-1" := mkPendingEntry launch_request (OtherCallback 0)]} idle_device.

Definition sample_server : MCPServer := mkMCPServer {[py "dev1" := busy_device]} ∅.

Definition response_frame (rid : string) : Frame :=
  mkFrame (Some (py "response")) None (Some (py rid))
          (Some (mkResponseData (Some (py "success")) None None)) None None.



(** ** Launch requests *)

Definition launch_action : Action :=
  mkAction (Some MCPActionTypes.LAUNCH_APP)
           (Some {[py "packageName" := PStr (py "com.example.app")]}).

Definition sample_io : SendIO := mkSendIO (py "req-1") 7 None.

(** C9. For a launch-app action whose params hold a "packageName" and
    neither a "fullComponent" nor an "activityName" key, the request
    message that [send_request] serializes and writes has exactly the
    action's params as its parameters; for params
    [{"packageName": "com.example.app"}] the parameters are
    [{"packageName": "com.example.app"}]. *)
Theorem launch_parameters_verbatim `{Codec} (device : DeviceConnection) (session_id : pystr)
    (params : gmap pystr pyval) (package : pyval) (io : SendIO) :
  params !! py "packageName" = Some package ->
  params !! py "fullComponent" = None ->
  params !! py "activityName" = None ->
  let action := mkAction (Some MCPActionTypes.LAUNCH_APP) (Some params) in
  let message := serialize_request (action_request session_id (io_uuid io) action) (io_now io) in
  m_parameters message = params /\
  (params = {[py "packageName" := package]} ->
   m_parameters message = {[py "packageName" := package]}) /\
  (connected device = true -> socket device = true -> io_send_error io = None ->
   snd (_execute_actions device session_id [(action, io)]) =
   [Write (OutRequest message); StartWatchdog (io_uuid io)]).
Proof.
  intros Hpkg Hfull Hact action message.
  assert (Hreq : action_request session_id (io_uuid io) action =
                 mkRequest (io_uuid io) (Some MCPActionTypes.LAUNCH_APP) params
                           (Some (mkContext (Some session_id)))).
  { unfold action_request, action. simpl. by rewrite Hfull, Hpkg, Hact. }
  assert (Hparams : m_parameters message = params).
  { unfold message. by rewrite Hreq. }
  split; [exact Hparams|]. split; [by intros <-|].
  intros Hconn Hsock Hsend. unfold _execute_actions, execute_loop, send_request.
  fold action. rewrite Hconn, Hsock, Hsend. simpl.
  unfold message. by rewrite Hreq.
Qed.

Lemma launch_parameters_verbatim_witness :
  m_parameters (serialize_request
                  (@action_request sample_codec (py "session") (py "req-1") launch_action) 7)
  = {[py "packageName" := PStr (py "com.example.app")]} /\
  snd (@_execute_actions sample_codec idle_device (py "session") [(launch_action, sample_io)]) =
  [Write (OutRequest (serialize_request
                        (@action_request sample_codec (py "session") (py "req-1") launch_action) 7));
   StartWatchdog (py "req-1")].
Proof.
  destruct (@launch_parameters_verbatim sample_codec idle_device (py "session")
              {[py "packageName" := PStr (py "com.example.app")]}
              (PStr (py "com.example.app")) sample_io)
    as (_ & Hexact & Hsent); [by vm_compute | by vm_compute | by vm_compute |].
  split; [exact (Hexact eq_refl) | exact (Hsent eq_refl eq_refl eq_refl)].
Defined.

(** ** Handshake *)

Lemma has_newline_app b1 b2 : has_newline (b1 ++ b2) = has_newline b1 || has_newline b2.
Proof. apply existsb_app. Qed.

Lemma before_newline_app b1 b2 :
  has_newline b1 = true -> before_newline (b1 ++ b2) = before_newline b1.
Proof.
  induction b1 as [|b b1 IH]; simpl; [done|].
  destruct (Byte.eqb newline b); simpl; [done|]. intros Hn. by rewrite IH.
Qed.

Definition in_time (a : Arrival) : Prop := (delay a < HANDSHAKE_TIMEOUT)%N /\ chunk a <> [].

Lemma recv_until_newline_sound arrivals : forall buffer b,
  recv_until_newline arrivals buffer = Some b ->
  exists n, Forall in_time (take n arrivals) /\
            b = buffer ++ concat (chunk <$> take n arrivals) /\
            has_newline b = true.
Proof.
  induction arrivals as [|a rest IH]; intros buffer b; simpl.
  - destruct (has_newline buffer) eqn:Hn; [|done]. intros [= <-].
    exists 0%nat. simpl. by rewrite app_nil_r.
  - destruct (has_newline buffer) eqn:Hn.
    + intros [= <-]. exists 0%nat. simpl. by rewrite app_nil_r.
    + destruct (N.leb_spec HANDSHAKE_TIMEOUT (delay a)) as [|Hd]; [done|].
      destruct (chunk a) as [|c cs] eqn:Hc; [done|]. intros Hrecv.
      destruct (IH _ _ Hrecv) as (n & Hall & -> & Hb).
      exists (S n). simpl. rewrite Hc. split; [|by rewrite <- app_assoc in *].
      constructor; [|done]. split; [done|]. by rewrite Hc.
Qed.

Lemma recv_until_newline_complete arrivals : forall buffer n,
  Forall in_time (take n arrivals) ->
  has_newline (buffer ++ concat (chunk <$> take n arrivals)) = true ->
  exists b, recv_until_newline arrivals buffer = Some b /\
            before_newline b = before_newline (buffer ++ concat (chunk <$> take n arrivals)).
Proof.
  induction arrivals as [|a rest IH]; intros buffer n Hall Hline; simpl.
  - rewrite take_nil in Hline. simpl in Hline. rewrite app_nil_r in Hline.
    rewrite Hline. exists buffer. by rewrite take_nil, app_nil_r.
  - destruct (has_newline buffer) eqn:Hn.
    + exists buffer. split; [done|]. by rewrite before_newline_app.
    + destruct n as [|n]; simpl in *.
      { rewrite app_nil_r in Hline. congruence. }
      apply Forall_cons in Hall as [[Hd Hc] Hall].
      destruct (N.leb_spec HANDSHAKE_TIMEOUT (delay a)) as [|_]; [lia|].
      destruct (chunk a) as [|c cs] eqn:Hchunk; [done|].
      rewrite app_assoc in Hline. destruct (IH _ n Hall Hline) as (b & Hb & Hbefore).
      exists b. split; [done|]. by rewrite Hbefore, <- app_assoc.
Qed.

Lemma _handle_handshake_accepts `{Codec} arrivals now write_ok device_id :
  fst (_handle_handshake arrivals now write_ok) = Some device_id <->
  handshake_accepted arrivals write_ok device_id.
Proof.
  unfold _handle_handshake, handshake_accepted. split.
  - destruct (recv_until_newline arrivals []) as [b|] eqn:Hrecv; [|done].
    destruct (recv_until_newline_sound _ _ _ Hrecv) as (n & Hall & -> & Hline).
    simpl in *.
    destruct (decode_frame _) as [message|] eqn:Hdec; [|done].
    case_bool_decide as Htype; simpl; [|done].
    destruct (f_deviceId message) as [id|] eqn:Hid; [|done].
    destruct id as [|c id]; simpl; [done|].
    destruct write_ok; simpl; [|done]. intros [= <-].
    exists n, message. by repeat split.
  - intros (n & message & Hall & Hline & Hdec & Htype & Hid & Hne & ->).
    destruct (recv_until_newline_complete arrivals [] n Hall Hline) as (b & -> & Hb).
    simpl in Hb. rewrite Hb, Hdec, Htype, Hid.
    rewrite bool_decide_eq_true_2 by done. simpl.
    by destruct device_id.
Qed.

(** A handshake whose line comes in two chunks, six time units apart. *)
Definition slow_handshake : list Arrival :=
  [mkArrival 6 (wire "{'type':'handshake',");
   mkArrival 6 (wire "'deviceId':'dev1'}" ++ [newline])].

Definition empty_server : MCPServer := mkMCPServer ∅ ∅.

(** C8, as stated, fails: the complete handshake line is there only after
    12 time units, more than the bound of 10, and the device is
    registered all the same, because the bound applies to each receive. *)
Lemma handshake_bound_is_per_receive :
  ~ (forall (codec : Codec) (srv : MCPServer) (arrivals : list Arrival) (now : Z),
        (forall t, line_arrival_time arrivals 0 = Some t -> (HANDSHAKE_TIMEOUT < t)%N) ->
        devices (fst (@accept_client codec srv arrivals now true true)) = devices srv).
Proof.
  intros Hclaim.
  specialize (Hclaim sample_codec empty_server slow_handshake 0).
  assert (Hreg : devices (fst (@accept_client sample_codec empty_server slow_handshake 0 true true))
                 !! py "dev1" = Some (new_DeviceConnection (py "dev1") 0)) by by vm_compute.
  rewrite Hclaim in Hreg; [by vm_compute in Hreg|].
  intros t Ht. vm_compute in Ht. injection Ht as <-. by vm_compute.
Qed.

(** C8 (amended). The connection attempt is aborted and no device is
    registered unless the handshake is accepted: every receive up to the
    first complete line returns data within the 10-time-unit bound (the
    bound is per receive, not for the handshake as a whole), the line
    decodes to a frame of type "handshake" with a non-empty deviceId, and
    the "handshake_response" reply is written. Only then is the device
    added to the registry, after the reply. *)
Theorem handshake_gate `{Codec} (srv : MCPServer) (arrivals : list Arrival) (now : Z)
    (handshake_write_ok welcome_write_ok : bool) :
  let result := accept_client srv arrivals now handshake_write_ok welcome_write_ok in
  (forall device_id,
      fst (_handle_handshake arrivals now handshake_write_ok) = Some device_id <->
      handshake_accepted arrivals handshake_write_ok device_id) /\
  ((forall device_id, ~ handshake_accepted arrivals handshake_write_ok device_id) ->
   result = (srv, [CloseSocket; CloseSocket])) /\
  (forall device_id,
      handshake_accepted arrivals handshake_write_ok device_id ->
      exists later,
        snd result = Write (OutHandshakeResponse now) :: later /\
        (welcome_write_ok = true ->
         devices (fst result) = <[device_id := new_DeviceConnection device_id now]> (devices srv))).
Proof.
  intros result. split; [intros device_id; apply _handle_handshake_accepts|]. split.
  - intros Hnone. unfold result, accept_client.
    destruct (_handle_handshake arrivals now handshake_write_ok) as [[id|] effects] eqn:Hhs.
    + exfalso. apply (Hnone id).
      apply (proj1 (_handle_handshake_accepts arrivals now handshake_write_ok id)).
      by rewrite Hhs.
    + assert (Heff : effects = []); [|by rewrite Heff].
      unfold _handle_handshake in Hhs.
      repeat (match type of Hhs with
              | context [match ?x with _ => _ end] => destruct x
              end; simpl in Hhs; try congruence).
  - intros device_id Hacc.
    apply (proj2 (_handle_handshake_accepts arrivals now handshake_write_ok device_id)) in Hacc.
    unfold result, accept_client.
    destruct (_handle_handshake arrivals now handshake_write_ok) as [[id|] effects] eqn:Hhs;
      simpl in Hacc; [|done]. injection Hacc as ->.
    assert (Heff : effects = [Write (OutHandshakeResponse now)]).
    { unfold _handle_handshake in Hhs.
      repeat (match type of Hhs with
              | context [match ?x with _ => _ end] => destruct x
              end; simpl in Hhs; try congruence). }
    subst effects. destruct welcome_write_ok.
    + eexists. split; [reflexivity|]. by intros _.
    + unfold cleanup_device. simpl. rewrite lookup_insert_eq. simpl.
      eexists. split; [reflexivity|]. done.
Qed.

Lemma handshake_gate_witness :
  devices (fst (@accept_client sample_codec empty_server slow_handshake 3 true true)) =
  <[py "dev1" := new_DeviceConnection (py "dev1") 3]> ∅ /\
  @accept_client sample_codec empty_server [mkArrival 10 (sample_handshake ++ [newline])] 3 true true
  = (empty_server, [CloseSocket; CloseSocket]).
Proof.
  destruct (@handshake_gate sample_codec empty_server slow_handshake 3 true true)
    as (_ & _ & Hreg).
  destruct (@handshake_gate sample_codec empty_server
              [mkArrival 10 (sample_handshake ++ [newline])] 3 true true)
    as (Hiff & Habort & _).
  split.
  - destruct (Hreg (py "dev1")) as (later & _ & Hdev); [|exact (Hdev eq_refl)].
    exists 2%nat, (mkFrame (Some (py "handshake")) (Some (py "dev1")) None None None None).
    repeat split; try reflexivity; try discriminate.
    repeat constructor; try discriminate; by vm_compute.
  - apply Habort. intros device_id Hacc. apply (proj2 (Hiff device_id)) in Hacc.
    by vm_compute in Hacc.
Defined.

(** ** Exactly-once delivery under interleaving *)

Lemma calls_app rid l1 l2 : calls rid (l1 ++ l2) = (calls rid l1 + calls rid l2)%nat.
Proof. unfold calls. by rewrite List.filter_app, length_app. Qed.

Lemma calls_zero_not_in rid l c r :
  calls rid l = 0%nat -> (c, r) ∈ l -> r_request_id r <> Some rid.
Proof.
  unfold calls. induction l as [|[c' r'] l IH]; intros Hz Hin; [by apply elem_of_nil in Hin|].
  simpl in Hz. case_bool_decide as Hid; simpl in *; [discriminate|].
  apply elem_of_cons in Hin as [[= -> ->]|Hin]; [done | by apply IH].
Qed.

(** What a removal from the pending table does, whoever makes it: the
    entry of [rid'] is removed and its callback is called once with a
    response for [rid'], or the entry is absent and nothing happens. *)
Definition pops (rid' : pystr) (d d' : DeviceConnection) (effects : list Effect) : Prop :=
  (exists e r,
      pending_requests d !! rid' = Some e /\
      pending_requests d' = delete rid' (pending_requests d) /\
      r_request_id r = Some rid' /\
      effects = [Invoke (p_callback e) r]) \/
  (d' = d /\ effects = []).

Lemma timeout_pop_pops d rid :
  pops rid d (fst (timeout_pop d rid)) (snd (timeout_pop d rid)).
Proof.
  unfold timeout_pop, pops. destruct (pending_requests d !! rid) as [e|] eqn:He; simpl.
  - left. by exists e, (error_response rid (py "Request timed out")).
  - by right.
Qed.

Lemma response_pop_pops `{Codec} d message :
  exists rid', pops rid' d (fst (response_pop d message)) (snd (response_pop d message)).
Proof.
  unfold response_pop, pops. destruct (f_requestId message) as [rid'|].
  - exists rid'. destruct (pending_requests d !! rid') as [e|] eqn:He; simpl.
    + left. eexists e, _. repeat split; try done.
    + by right.
  - exists []. by right.
Qed.

(** The invariant of a request id [rid] sent with callback [cb]: calls
    made plus entries pending is one; a pending entry is the one of [cb]
    and has a timeout thread that has not finished; every call made for
    [rid] is a call of [cb]. *)
Definition live (rid : pystr) (wds : list Watchdog) : Prop :=
  exists wd, wd ∈ wds /\ wd_request_id wd = rid /\ wd_state wd <> WdDone.

Definition pending_count (rid : pystr) (d : DeviceConnection) : nat :=
  match pending_requests d !! rid with Some _ => 1 | None => 0 end.

Record once_inv (rid : pystr) (cb : Callback) (s : System) : Prop := mk_once_inv {
  once_count : (calls rid (log s) + pending_count rid (dev s) = 1)%nat;
  once_entry : forall e, pending_requests (dev s) !! rid = Some e ->
                         p_callback e = cb /\ live rid (watchdogs s);
  once_callback : forall c r, (c, r) ∈ log s -> r_request_id r = Some rid -> c = cb
}.

Lemma live_app rid wds new : live rid wds -> live rid (wds ++ new).
Proof. intros (wd & Hin & Hrest). exists wd. split; [set_solver | done]. Qed.

Lemma live_update rid wds i rid' st st' :
  wds !! i = Some (mkWatchdog rid' st) ->
  (rid' = rid -> st' <> WdDone) ->
  live rid wds -> live rid (<[i := mkWatchdog rid' st']> wds).
Proof.
  intros Hi Hst (wd & Hin & Hid & Hlive).
  apply list_elem_of_lookup in Hin as [j Hj].
  destruct (decide (i = j)) as [->|Hne].
  - rewrite Hi in Hj. injection Hj as <-. simpl in *.
    exists (mkWatchdog rid' st'). split; [|by auto].
    apply list_elem_of_lookup. exists j. apply list_lookup_insert_eq.
    by apply lookup_lt_Some in Hi.
  - exists wd. split; [|done]. apply list_elem_of_lookup. exists j.
    by rewrite list_lookup_insert_ne.
Qed.

Lemma once_inv_pops rid cb s rid' d' effects wds' :
  pops rid' (dev s) d' effects ->
  (forall e, pending_requests d' !! rid = Some e ->
             live rid (watchdogs s) -> live rid wds') ->
  once_inv rid cb s ->
  once_inv rid cb (mkSystem d' (registered s) wds' (reader s) (log s ++ invocations effects)).
Proof.
  intros Hpops Hlive [Hcount Hentry Hcb]. unfold pending_count in *.
  destruct Hpops as [(e & r & He & Hd' & Hr & ->)|[-> ->]].
  - destruct (decide (rid' = rid)) as [->|Hne].
    + rewrite He in Hcount. destruct (Hentry e He) as [Hcbe _].
      constructor; simpl.
      * unfold pending_count. simpl. rewrite Hd', lookup_delete_eq, calls_app.
        unfold calls at 2. simpl. rewrite bool_decide_eq_true_2 by done. simpl. lia.
      * intros e'. rewrite Hd', lookup_delete_eq. done.
      * intros c r' Hin Hid. apply elem_of_app in Hin as [Hin|Hin]; [by eapply Hcb|].
        apply list_elem_of_singleton in Hin. by injection Hin as -> ->.
    + constructor; simpl.
      * unfold pending_count. simpl. rewrite Hd', lookup_delete_ne, calls_app by done.
        unfold calls at 2. simpl. rewrite bool_decide_eq_false_2 by congruence. simpl. lia.
      * intros e' He'. pose proof He' as He''.
        rewrite Hd', lookup_delete_ne in He'' by done.
        destruct (Hentry e' He'') as [? Hl]. split; [done|]. by eapply Hlive.
      * intros c r' Hin Hid. apply elem_of_app in Hin as [Hin|Hin]; [by eapply Hcb|].
        apply list_elem_of_singleton in Hin. injection Hin as -> ->. congruence.
  - constructor; simpl.
    + by rewrite app_nil_r.
    + intros e He. destruct (Hentry e He) as [? Hl]. split; [done|]. by eapply Hlive.
    + intros c r. rewrite app_nil_r. apply Hcb.
Qed.

Lemma calls_none rid l :
  (forall c r, (c, r) ∈ l -> r_request_id r <> Some rid) -> calls rid l = 0%nat.
Proof.
  unfold calls. induction l as [|[c r] l IH]; intros Hall; [done|]. simpl.
  rewrite bool_decide_eq_false_2 by (eapply Hall; left). apply IH.
  intros c' r' Hin. eapply Hall. by right.
Qed.

(** A step that leaves the entry of [rid] alone and makes no call for
    [rid] keeps the invariant. *)
Lemma once_inv_frame rid cb s d' reg' wds' reader' new :
  pending_requests d' !! rid = pending_requests (dev s) !! rid ->
  (forall e, pending_requests d' !! rid = Some e ->
             live rid (watchdogs s) -> live rid wds') ->
  (forall c r, (c, r) ∈ new -> r_request_id r <> Some rid) ->
  once_inv rid cb s ->
  once_inv rid cb (mkSystem d' reg' wds' reader' (log s ++ new)).
Proof.
  intros Hpend Hlive Hnew [Hcount Hentry Hcb]. constructor; simpl.
  - unfold pending_count in *. simpl. rewrite Hpend, calls_app, (calls_none rid new) by done. lia.
  - intros e He. pose proof He as He'. rewrite Hpend in He'.
    destruct (Hentry e He') as [? Hl]. split; [done|]. by eapply Hlive.
  - intros c r Hin Hid. apply elem_of_app in Hin as [Hin|Hin]; [by eapply Hcb|].
    by destruct (Hnew c r Hin).
Qed.

Lemma once_inv_same rid cb s d' reg' wds' reader' :
  pending_requests d' !! rid = pending_requests (dev s) !! rid ->
  (forall e, pending_requests d' !! rid = Some e ->
             live rid (watchdogs s) -> live rid wds') ->
  once_inv rid cb s ->
  once_inv rid cb (mkSystem d' reg' wds' reader' (log s)).
Proof.
  intros Hpend Hlive Hinv. rewrite <- (app_nil_r (log s)).
  apply once_inv_frame; try done. intros c r Hin. by apply elem_of_nil in Hin.
Qed.

Lemma send_request_other rid d request callback now send_error :
  request_id request <> rid ->
  pending_requests (fst (send_request d request callback now send_error)) !! rid
  = pending_requests d !! rid /\
  (forall c r, (c, r) ∈ invocations (snd (send_request d request callback now send_error)) ->
               r_request_id r <> Some rid).
Proof.
  intros Hne. unfold send_request.
  destruct (negb (connected d) || negb (socket d)); [|destruct send_error];
    destruct callback; simpl; (split; [by rewrite ?lookup_insert_ne|]);
    intros c0 r0 Hin; try (by apply elem_of_nil in Hin);
    apply list_elem_of_singleton in Hin; injection Hin as -> ->; simpl; congruence.
Qed.

Lemma timeout_pop_gone d rid : pending_requests (fst (timeout_pop d rid)) !! rid = None.
Proof.
  unfold timeout_pop. destruct (pending_requests d !! rid) eqn:He; simpl; [|done].
  apply lookup_delete_eq.
Qed.

Lemma once_inv_exec `{Codec} rid cb step s :
  other_id rid step -> once_inv rid cb s -> once_inv rid cb (exec step s).
Proof.
  intros Hother Hinv. destruct step as [request callback now err|i|message now| | |]; simpl.
  - destruct (send_request_other rid (dev s) request callback now err Hother) as [Hp Hc].
    destruct (send_request (dev s) request callback now err) as [d effects]. simpl in *.
    apply once_inv_frame; try done. intros e _. apply live_app.
  - destruct (watchdogs s !! i) as [[rid' [| |]]|] eqn:Hi; [| |done|done].
    + apply once_inv_same; [done| |done]. intros e He. apply (live_update _ _ _ _ _ _ Hi).
      intros ->. unfold timeout_test. rewrite bool_decide_eq_true_2; [done | by eexists].
    + pose proof (timeout_pop_pops (dev s) rid') as Hpops.
      pose proof (timeout_pop_gone (dev s) rid') as Hgone.
      destruct (timeout_pop (dev s) rid') as [d effects]. simpl in *.
      apply once_inv_pops with (rid' := rid'); try done.
      intros e He. apply (live_update _ _ _ _ _ _ Hi). intros ->. congruence.
  - destruct Hinv as [? ? ?]. destruct (reader s); [by constructor|].
    destruct (negb (registered s)); [by constructor|].
    case_bool_decide; [by constructor|].
    case_bool_decide; [|by constructor].
    destruct (response_test (dev s) message); by constructor.
  - destruct (reader s) as [message|] eqn:Hreader; [|done].
    destruct (response_pop_pops (dev s) message) as [rid' Hpops].
    destruct (response_pop (dev s) message) as [d effects]. simpl in *.
    pose proof (once_inv_pops rid cb s rid' d effects (watchdogs s) Hpops (fun _ _ Hl => Hl) Hinv)
      as [? ? ?].
    by constructor.
  - destruct Hinv as [? ? ?]. destruct (reader s); [by constructor|].
    destruct (registered s); by constructor.
  - destruct Hinv as [? ? ?]. destruct (reader s); by constructor.
Qed.

Lemma once_inv_run `{Codec} rid cb schedule : forall s,
  Forall (other_id rid) schedule -> once_inv rid cb s -> once_inv rid cb (run schedule s).
Proof.
  induction schedule as [|step schedule IH]; intros s Hall Hinv; [done|].
  apply Forall_cons in Hall as [Hstep Hall]. simpl. apply IH; [done|].
  by apply once_inv_exec.
Qed.










(** ** Disconnect *)

(** C2, as stated, fails: the cleanup of a device with a request pending
    calls no continuation. *)
Lemma cleanup_resolves_nothing :
  ~ (forall (srv : MCPServer) (device_id : pystr) (device : DeviceConnection)
            (rid : pystr) (e : PendingEntry),
        devices srv !! device_id = Some device ->
        pending_requests device !! rid = Some e ->
        exists r, Invoke (p_callback e) r ∈ snd (cleanup_device srv device_id)).
Proof.
  intros Hclaim.
  destruct (Hclaim sample_server (py "dev1") busy_device (py "req-1")
              (mkPendingEntry launch_request (OtherCallback 0)))
    as [r Hin]; [by vm_compute | by vm_compute |].
  vm_compute in Hin. apply list_elem_of_singleton in Hin. discriminate.
Qed.

(** After the cleanup no response reaches the object any more: every call
    made for [rid] from then on is the timeout failure. *)
Record closed_inv (rid : pystr) (s : System) : Prop := mk_closed_inv {
  closed_unregistered : registered s = false;
  closed_reader : reader s = None;
  closed_timeouts : forall c r, (c, r) ∈ log s -> r_request_id r = Some rid ->
                                r = error_response rid (py "Request timed out")
}.

Lemma closed_inv_exec `{Codec} rid step s :
  other_id rid step -> closed_inv rid s -> closed_inv rid (exec step s).
Proof.
  intros Hother [Hreg Hreader Hlog].
  destruct step as [request callback now err|i|message now| | |]; simpl.
  - destruct (send_request_other rid (dev s) request callback now err Hother) as [_ Hc].
    destruct (send_request (dev s) request callback now err) as [d effects]. simpl in *.
    constructor; simpl; try done. intros c r Hin Hid.
    apply elem_of_app in Hin as [Hin|Hin]; [by eapply Hlog | by destruct (Hc c r Hin)].
  - destruct (watchdogs s !! i) as [[rid' [| |]]|]; [by constructor| |by constructor..].
    unfold timeout_pop. destruct (pending_requests (dev s) !! rid') as [e|]; simpl.
    + constructor; simpl; try done. intros c r Hin Hid.
      apply elem_of_app in Hin as [Hin|Hin]; [by eapply Hlog|].
      apply list_elem_of_singleton in Hin. injection Hin as -> ->.
      simpl in Hid. by injection Hid as ->.
    + constructor; simpl; try done. intros c r. rewrite app_nil_r. apply Hlog.
  - rewrite Hreader, Hreg. by constructor.
  - rewrite Hreader. by constructor.
  - rewrite Hreader, Hreg. by constructor.
  - rewrite Hreader. by constructor.
Qed.

Lemma closed_inv_run `{Codec} rid schedule : forall s,
  Forall (other_id rid) schedule -> closed_inv rid s -> closed_inv rid (run schedule s).
Proof.
  induction schedule as [|step schedule IH]; intros s Hall Hinv; [done|].
  apply Forall_cons in Hall as [Hstep Hall]. simpl. apply IH; [done|].
  by apply closed_inv_exec.
Qed.

(** A connected device with one request pending and its timeout thread
    asleep. *)
Definition busy_system : System :=
  mkSystem busy_device true [mkWatchdog (py "req-1") WdSleeping] None [].

(** C2 (amended). The disconnect cleanup marks the device disconnected and
    removes it from the registry; it leaves the pending table as it is and
    calls no continuation. Each request still pending is resolved
    afterwards by its own timeout thread: in every interleaving its
    continuation is called at most once, only with the "Request timed
    out" failure, and exactly once as soon as the timeout thread has run
    to its end. *)
Theorem disconnect_leaves_pending_to_timeouts `{Codec} :
  (forall srv device_id device,
      devices srv !! device_id = Some device ->
      cleanup_device srv device_id =
      (mkMCPServer (delete device_id (devices srv)) (sessions srv),
       Some (mkDeviceConnection (dc_device_id device) false (socket device)
                                (pending_requests device) (last_seen device)),
       [CloseSocket])) /\
  (forall s rid e schedule,
      registered s = true ->
      reader s = None ->
      pending_requests (dev s) !! rid = Some e ->
      live rid (watchdogs s) ->
      calls rid (log s) = 0%nat ->
      Forall (other_id rid) schedule ->
      let closed := exec StepCleanup s in
      let final := run schedule closed in
      (pending_requests (dev closed) = pending_requests (dev s) /\
       log closed = log s /\
       connected (dev closed) = false /\
       registered closed = false) /\
      (calls rid (log final) <= 1)%nat /\
      (watchdogs_done rid final -> calls rid (log final) = 1%nat) /\
      (forall c r, (c, r) ∈ log final -> r_request_id r = Some rid ->
                   c = p_callback e /\ r = error_response rid (py "Request timed out"))).
Proof.
  split.
  - intros srv device_id device Hdev. unfold cleanup_device. by rewrite Hdev.
  - intros s rid e schedule Hreg Hreader He Hlive Hzero Hother closed final.
    assert (Hclosed : closed = mkSystem (set_connected false (dev s)) false (watchdogs s) None (log s)).
    { unfold closed. simpl. by rewrite Hreader, Hreg. }
    split; [by rewrite Hclosed|].
    assert (Honce0 : once_inv rid (p_callback e) s).
    { constructor.
      - unfold pending_count. rewrite He, Hzero. done.
      - intros e'. rewrite He. intros [= <-]. by split.
      - intros c r Hin Hid. by destruct (calls_zero_not_in _ _ _ _ Hzero Hin). }
    assert (Honce : once_inv rid (p_callback e) final).
    { apply once_inv_run; [done|]. by apply once_inv_exec. }
    assert (Htimeouts : closed_inv rid final).
    { apply closed_inv_run; [done|]. rewrite Hclosed. constructor; simpl; try done.
      intros c r Hin Hid. by destruct (calls_zero_not_in _ _ _ _ Hzero Hin). }
    destruct Honce as [Hcount Hentry Hcb]. destruct Htimeouts as [_ _ Hlog].
    unfold pending_count in Hcount. split; [lia|]. split.
    + intros Hdone. destruct (pending_requests (dev final) !! rid) as [e'|] eqn:He'; [|lia].
      destruct (Hentry e' eq_refl) as [_ (wd & Hin & Hid & Hl)].
      by destruct (Hl (Hdone wd Hin Hid)).
    + intros c r Hin Hid. split; [by eapply Hcb | by eapply Hlog].
Qed.

Lemma disconnect_leaves_pending_to_timeouts_witness :
  log (@exec sample_codec StepCleanup busy_system) = [] /\
  pending_requests (dev (@exec sample_codec StepCleanup busy_system)) !! py "req-1"
  = Some (mkPendingEntry launch_request (OtherCallback 0)) /\
  log (@run sample_codec [StepFrame (response_frame "req-1") 3; StepReaderPop;
                          StepWatchdog 0; StepWatchdog 0]
            (@exec sample_codec StepCleanup busy_system))
  = [(OtherCallback 0, error_response (py "req-1") (py "Request timed out"))].
Proof.
  destruct (@disconnect_leaves_pending_to_timeouts sample_codec) as [_ Hsys].
  destruct (Hsys busy_system (py "req-1") (mkPendingEntry launch_request (OtherCallback 0))
              [StepFrame (response_frame "req-1") 3; StepReaderPop;
               StepWatchdog 0; StepWatchdog 0])
    as ((Hpend & Hlog & _) & _ & Hdone & Hcalls).
  - reflexivity.
  - reflexivity.
  - reflexivity.
  - exists (mkWatchdog (py "req-1") WdSleeping). split; [by left | by split].
  - reflexivity.
  - repeat constructor.
  - split; [exact Hlog|]. split; [by rewrite Hpend|]. reflexivity.
Defined.
